(** * ASD_detector.ipynb: inference, Grad-CAM explanation and subset evaluation

    A shallow embedding of the notebook cells that define [predict_asd],
    [get_gradcam_heatmap], the overlay blending, [get_true_label] and the
    evaluation loop over [test_images].

    Numbers.  The notebook computes in float32/float64.  Here a finite float
    is an exact rational ([Q]): rounding is not represented.  What is kept of
    IEEE arithmetic is the one place where the notebook can leave the finite
    numbers, the division that normalises the heatmap (see [np_float]).

    Collaborators.  Keras, TensorFlow's gradient tape, PIL and OpenCV are not
    part of the notebook.  The trained network appears as a record giving, for
    a prepared image, what those libraries hand back to the notebook. *)

From Stdlib Require Import QArith Qminmax Qround Lqa ZArith.
From Stdlib Require Import List String Ascii Bool Lia.
Import ListNotations.

Local Open Scope Q_scope.

(* ===================================================================== *)
(** * Comparisons and small numeric helpers *)
(* ===================================================================== *)

Module Num.

(** Python's [a > b] on two finite numbers. *)
Definition gt (a b : Q) : bool := negb (Qle_bool a b).

(** Sum and arithmetic mean of a list, as [tf.reduce_mean] computes them
    along one axis.  On an axis of length zero TensorFlow yields NaN; the
    feature maps of a convolutional layer have no such axis, and the theorems
    below assume positive extents wherever a mean is taken. *)
Definition sum (l : list Q) : Q := fold_right Qplus 0 l.

Definition mean (l : list Q) : Q := sum l / inject_Z (Z.of_nat (List.length l)).

End Num.

(* ===================================================================== *)
(** * The classifier as the notebook sees it *)
(* ===================================================================== *)

(** A pixel array of shape height x width x channels. *)
Definition tensor3 := list (list (list Q)).

(** A 2-d array, height x width. *)
Definition tensor2 (A : Type) := list (list A).

(** One named layer of the Keras model.  [output x] is the activation the
    layer produces for the one-image batch [x] (batch axis dropped), and
    [d_prediction x] is the derivative of the model's output probability
    with respect to that activation, evaluated at [x]: the quantity the
    gradient tape reports for [loss = predictions[:, 0]]. *)
Record layer := {
  output : tensor3 -> tensor3;
  d_prediction : tensor3 -> tensor3
}.

(** The Keras model: its layers in order, by name, and the function from a
    prepared image to the sigmoid output [model.predict(x)[0][0]]. *)
Record keras_model := {
  layers : list (string * layer);
  predict : tensor3 -> Q
}.

(* ===================================================================== *)
(** * Label and confidence ([predict_asd], pure part) *)
(* ===================================================================== *)

Module Inference.

(** [label = 'Autistic' if prediction > 0.5 else 'Non_Autistic'] *)
Definition label (prediction : Q) : string :=
  if Num.gt prediction 0.5 then "Autistic"%string else "Non_Autistic"%string.

(** [confidence = prediction if prediction > 0.5 else 1 - prediction] *)
Definition confidence (prediction : Q) : Q :=
  if Num.gt prediction 0.5 then prediction else 1 - prediction.

End Inference.

(* ===================================================================== *)
(** * Target score of the explanation ([get_gradcam_heatmap], tape block) *)
(* ===================================================================== *)

Module Target.

(** The two expressions the tape can be asked to differentiate. *)
Inductive loss_expr := Prediction | OneMinusPrediction.

(** [predicted_class = tf.cast(predictions > 0.5, "float32")] *)
Definition predicted_class (predictions : Q) : Q :=
  if Num.gt predictions 0.5 then 1 else 0.

(** [loss = predictions[:, 0] if predicted_class[0] > 0.5
           else 1 - predictions[:, 0]] *)
Definition loss (predictions : Q) : loss_expr :=
  if Num.gt (predicted_class predictions) 0.5 then Prediction
  else OneMinusPrediction.

(** The value of the selected expression. *)
Definition loss_value (e : loss_expr) (predictions : Q) : Q :=
  match e with
  | Prediction => predictions
  | OneMinusPrediction => 1 - predictions
  end.

(** [tape.gradient(loss, conv_outputs)[0]]: differentiation is linear, so
    the gradient of [predictions] is the layer's [d_prediction] and that of
    [1 - predictions] is its negation. *)
Definition tape_gradient (e : loss_expr) (d_pred : tensor3) : tensor3 :=
  match e with
  | Prediction => d_pred
  | OneMinusPrediction => map (map (map Qopp)) d_pred
  end.

End Target.

(* ===================================================================== *)
(** * Python outcomes and effects *)
(* ===================================================================== *)

Module Py.

(** The exceptions the modelled cells can raise.  [OSError] stands for what
    [load_img] raises on a path it cannot open or decode (FileNotFoundError
    and PIL's UnidentifiedImageError are both subclasses of it);
    [ValueError] is raised by Keras's [get_layer] on an unknown name and by
    [np.max] on an array without elements; [ZeroDivisionError] by [/] on
    Python integers. *)
Inductive exn := ValueError | ZeroDivisionError | OSError.

Inductive result (A : Type) :=
| Returns (a : A)
| Raises (e : exn).
Arguments Returns {A} a.
Arguments Raises {A} e.

(** Lines written by the evaluation cell, kept structured: the notebook
    formats the numbers with two decimals. *)
Inductive line :=
| Header
| ImageLine (basename : string)
| TrueLabelLine (true_label : option string)
| PredictedLine (predicted_label : string) (confidence : Q)
| CorrectLine (is_correct : bool)
| AccuracyLine (subset_accuracy : Q)
| CountLine (correct_predictions total_images : nat).

(** What a cell does to the world, in the order it does it. *)
Inductive event :=
| LoadImg (path : string) (target_size : nat * nat)
| GetLayer (name : string)
| Forward
| PrintLine (l : line).

(** A computation threads the log of events and may stop with an
    exception; the log survives the exception. *)
Definition py (A : Type) := list event -> result A * list event.

Definition ret {A} (a : A) : py A := fun log => (Returns a, log).

Definition raise {A} (e : exn) : py A := fun log => (Raises e, log).

Definition bind {A B} (c : py A) (k : A -> py B) : py B :=
  fun log =>
    match c log with
    | (Returns a, log') => k a log'
    | (Raises e, log') => (Raises e, log')
    end.

Definition emit (e : event) : py unit := fun log => (Returns tt, log ++ [e]).

Definition lift {A} (r : result A) : py A := fun log => (r, log).

Definition run {A} (c : py A) : result A * list event := c [].

(** Events that touch one particular image: reading it and running the
    network on it. *)
Definition per_image_work (e : event) : bool :=
  match e with
  | LoadImg _ _ | Forward => true
  | GetLayer _ | PrintLine _ => false
  end.

End Py.

Import Py.

Notation "x <- c ;; k" := (Py.bind c (fun x => k))
  (at level 61, c at next level, right associativity).
Notation "c ;;; k" := (Py.bind c (fun _ => k))
  (at level 61, right associativity).

(* ===================================================================== *)
(** * Storage, image loading and layer lookup *)
(* ===================================================================== *)

(** [storage path target_size] is the array that
    [img_to_array(load_img(path, target_size=target_size))] yields (values
    0..255), or [None] when the path cannot be opened or decoded. *)
Definition storage := string -> nat * nat -> option tensor3.

Definition IMG_SIZE : nat * nat := (299, 299)%nat.

Definition load_img (fs : storage) (path : string) (target_size : nat * nat)
  : py tensor3 :=
  emit (LoadImg path target_size) ;;;
  match fs path target_size with
  | Some img => ret img
  | None => raise OSError
  end.

(** [img_array / 255.0] *)
Definition div255 (img_array : tensor3) : tensor3 :=
  map (map (map (fun v => v / 255.0))) img_array.

(** Search of the layer list for an exact name match. *)
Fixpoint find_layer (ls : list (string * layer)) (name : string)
  : option layer :=
  match ls with
  | [] => None
  | (n, l) :: rest => if String.eqb n name then Some l else find_layer rest name
  end.

(** [model.get_layer(name)] *)
Definition get_layer (model : keras_model) (name : string) : py layer :=
  emit (GetLayer name) ;;;
  match find_layer (layers model) name with
  | Some l => ret l
  | None => raise ValueError
  end.

(** [predict_asd(image_path, model)] *)
Definition predict_asd (fs : storage) (image_path : string)
  (model : keras_model) : py (string * Q) :=
  img <- load_img fs image_path IMG_SIZE ;;
  let img_array := div255 img in
  emit Forward ;;;
  let prediction := predict model img_array in
  let label := Inference.label prediction in
  let confidence := Inference.confidence prediction in
  ret (label, confidence).

(* ===================================================================== *)
(** * Array operations of the heatmap computation *)
(* ===================================================================== *)

Module Np.

(** The result of a float division: a finite number, an infinity or NaN. *)
Inductive np_float :=
| Fin (q : Q)
| Inf (negative : bool)
| NaN.

(** [x / m] on two finite floats, with numpy's default error state: a zero
    divisor raises nothing (a RuntimeWarning is printed) and gives NaN for
    [0 / 0] and a signed infinity otherwise. *)
Definition true_divide (x m : Q) : np_float :=
  if Qeq_bool m 0 then
    if Qeq_bool x 0 then NaN else Inf (negb (Num.gt x 0))
  else Fin (x / m).

(** IEEE addition and multiplication on [np_float]. *)
Definition add (a b : np_float) : np_float :=
  match a, b with
  | NaN, _ | _, NaN => NaN
  | Fin x, Fin y => Fin (x + y)
  | Fin _, Inf s | Inf s, Fin _ => Inf s
  | Inf s, Inf s' => if Bool.eqb s s' then Inf s else NaN
  end.

Definition mul (a b : np_float) : np_float :=
  match a, b with
  | NaN, _ | _, NaN => NaN
  | Fin x, Fin y => Fin (x * y)
  | Fin x, Inf s | Inf s, Fin x =>
      if Qeq_bool x 0 then NaN else Inf (xorb s (negb (Num.gt x 0)))
  | Inf s, Inf s' => Inf (xorb s s')
  end.

(** Truncation toward zero, the rounding of a C cast from float to integer. *)
Definition trunc (q : Q) : Z :=
  if Qle_bool 0 q then Qfloor q else Qceiling q.

(** [np.uint8(x)] / [x.astype(np.uint8)] on a float.  numpy defines the
    result only when the truncated value fits the type; elsewhere (and on
    NaN and the infinities) the value is whatever the platform's cast
    gives, and the embedding has [None]. *)
Definition uint8_of_Q (q : Q) : option Z :=
  let t := trunc q in
  if ((0 <=? t) && (t <=? 255))%Z then Some t else None.

Definition astype_uint8 (v : np_float) : option Z :=
  match v with
  | Fin q => uint8_of_Q q
  | Inf _ | NaN => None
  end.

(** [np.clip(x, lo, hi)] *)
Definition clip (x lo hi : Q) : Q := Qmin (Qmax x lo) hi.

(** Number of channels of a height x width x channels array. *)
Definition channels (t : tensor3) : nat := List.length (hd [] (List.concat t)).

(** All entries of channel [k], over both spatial axes. *)
Definition channel (k : nat) (t : tensor3) : list Q :=
  map (fun px => nth k px 0) (List.concat t).

(** [tf.reduce_mean(grads, axis=(0, 1))] *)
Definition reduce_mean_01 (grads : tensor3) : list Q :=
  map (fun k => Num.mean (channel k grads)) (seq 0 (channels grads)).

(** [tf.multiply(conv_outputs, pooled_grads)]: the vector is broadcast
    along the last axis.  Both arguments have the same number of channels
    in the notebook, the gradient having the shape of [conv_outputs]. *)
Definition multiply (conv_outputs : tensor3) (pooled_grads : list Q)
  : tensor3 :=
  map (map (fun px =>
              map (fun aw => fst aw * snd aw) (combine px pooled_grads)))
      conv_outputs.

(** [tf.reduce_mean(t, axis=-1)] *)
Definition reduce_mean_last (t : tensor3) : tensor2 Q :=
  map (map Num.mean) t.

(** [np.maximum(heatmap, 0)] *)
Definition maximum0 (heatmap : tensor2 Q) : tensor2 Q :=
  map (map (fun v => Qmax v 0)) heatmap.

(** [np.max(heatmap)]: raises ValueError on an array without elements. *)
Definition amax (heatmap : tensor2 Q) : Py.result Q :=
  match List.concat heatmap with
  | [] => Raises ValueError
  | v :: vs => Returns (fold_left Qmax vs v)
  end.

(** [heatmap / np.max(heatmap)] *)
Definition normalize (heatmap : tensor2 Q) : Py.result (tensor2 np_float) :=
  match amax heatmap with
  | Raises e => Raises e
  | Returns m => Returns (map (map (fun v => true_divide v m)) heatmap)
  end.

End Np.

Import Np.

(* ===================================================================== *)
(** * [get_gradcam_heatmap] *)
(* ===================================================================== *)

Module GradCam.

(** [cv2.resize(src, dsize)] with [dsize = (width, height)].  OpenCV is a
    collaborator: the function is an argument of the embedding, and the
    theorems state what they need of it. *)
Definition resizer := tensor2 np_float -> nat * nat -> tensor2 np_float.

(** The heatmap before normalisation: pooled gradients, weighting of the
    channels, mean over the channel axis, ReLU. *)
Definition pooled_grads (grads : tensor3) : list Q := reduce_mean_01 grads.

Definition raw_heatmap (conv_outputs grads : tensor3) : tensor2 Q :=
  reduce_mean_last (multiply conv_outputs (pooled_grads grads)).

Definition relu_heatmap (conv_outputs grads : tensor3) : tensor2 Q :=
  maximum0 (raw_heatmap conv_outputs grads).

(** The value of [heatmap] after [heatmap = heatmap / np.max(heatmap)]. *)
Definition normalized_heatmap (conv_outputs grads : tensor3)
  : Py.result (tensor2 np_float) :=
  normalize (relu_heatmap conv_outputs grads).

(** [np.uint8(255 * cv2.resize(heatmap, (img_size[1], img_size[0])))] *)
Definition to_uint8 (resize : resizer) (heatmap : tensor2 np_float)
  (img_size : nat * nat) : tensor2 (option Z) :=
  let heatmap := resize heatmap (snd img_size, fst img_size) in
  map (map (fun v => astype_uint8 (mul (Fin 255) v))) heatmap.

Definition get_gradcam_heatmap (fs : storage) (resize : resizer)
  (model : keras_model) (img_path : string) (img_size : nat * nat)
  (last_conv_layer_name : string) : py (tensor2 (option Z) * tensor3) :=
  (* Load and preprocess the image *)
  img <- load_img fs img_path img_size ;;
  let img_array := div255 img in
  (* Get the last convolutional layer *)
  last_conv_layer <- get_layer model last_conv_layer_name ;;
  (* grad_model([img_tensor]) under the tape *)
  emit Forward ;;;
  let conv_outputs := output last_conv_layer img_array in
  let predictions := predict model img_array in
  let loss := Target.loss predictions in
  (* Get the gradients *)
  let grads :=
    Target.tape_gradient loss (d_prediction last_conv_layer img_array) in
  heatmap <- lift (normalized_heatmap conv_outputs grads) ;;
  let heatmap := to_uint8 resize heatmap img_size in
  ret (heatmap, img).

End GradCam.

(* ===================================================================== *)
(** * Bilinear resampling, the rule of [cv2.resize]'s default mode *)
(* ===================================================================== *)

Module Cv2.

(** Source index and fractional weight for destination index [i] when an
    axis of [s] samples is resampled to [d]: pixel centres are aligned and
    the border is replicated. *)
Definition coord (s d i : nat) : nat * Q :=
  let scale := inject_Z (Z.of_nat s) / inject_Z (Z.of_nat d) in
  let f := (inject_Z (Z.of_nat i) + 0.5) * scale - 0.5 in
  let sx := Qfloor f in
  if (sx <? 0)%Z then (0%nat, 0)
  else if (Z.of_nat s - 1 <=? sx)%Z then ((s - 1)%nat, 0)
  else (Z.to_nat sx, f - inject_Z sx).

Definition sample (src : tensor2 np_float) (y x : nat) : np_float :=
  nth x (nth y src []) NaN.

Definition lerp (f : Q) (a b : np_float) : np_float :=
  add (mul (Fin (1 - f)) a) (mul (Fin f) b).

Definition resize_linear : GradCam.resizer :=
  fun src dsize =>
    let sh := List.length src in
    let sw := List.length (hd [] src) in
    map (fun dy =>
           let (sy, fy) := coord sh (snd dsize) dy in
           let sy' := Nat.min (sy + 1) (sh - 1) in
           map (fun dx =>
                  let (sx, fx) := coord sw (fst dsize) dx in
                  let sx' := Nat.min (sx + 1) (sw - 1) in
                  lerp fy (lerp fx (sample src sy sx) (sample src sy sx'))
                          (lerp fx (sample src sy' sx) (sample src sy' sx')))
               (seq 0 (fst dsize)))
        (seq 0 (snd dsize)).

End Cv2.

(* ===================================================================== *)
(** * Overlay blending (visualisation cells) *)
(* ===================================================================== *)

Module Overlay.

(** [alpha = 0.4] *)
Definition alpha : Q := 0.4.

(** One channel of one pixel:
    [heatmap = np.float32(heatmap) / 255]
    [overlay = (1 - alpha) * original_img + alpha * heatmap * 255]
    [overlay = np.clip(overlay, 0, 255).astype(np.uint8)] *)
Definition blend (original_img : Q) (heatmap_rgb : Z) : option Z :=
  let heatmap := inject_Z heatmap_rgb / 255 in
  let overlay := (1 - alpha) * original_img + alpha * heatmap * 255 in
  uint8_of_Q (clip overlay 0 255).

(** The whole arrays, element by element.  numpy refuses operands whose
    shapes do not agree; the embedding pairs the elements and is meant for
    arrays of one shape. *)
Definition overlay (original_img : tensor3) (heatmap_rgb : list (list (list Z)))
  : list (list (list (option Z))) :=
  map (fun rows =>
         map (fun pxs => map (fun c => blend (fst c) (snd c))
                             (combine (fst pxs) (snd pxs)))
             (combine (fst rows) (snd rows)))
      (combine original_img heatmap_rgb).

End Overlay.

(* ===================================================================== *)
(** * Paths and the label read from a path *)
(* ===================================================================== *)

Module Paths.

Local Open Scope string_scope.

(** Python's [pat in s] on strings. *)
Fixpoint contains (pat s : string) : bool :=
  String.prefix pat s ||
  match s with
  | EmptyString => false
  | String _ rest => contains pat rest
  end.

(** [s.endswith(suffix)] *)
Definition endswith (s suffix : string) : bool :=
  (String.length suffix <=? String.length s)%nat &&
  String.eqb
    (substring (String.length s - String.length suffix)
               (String.length suffix) s)
    suffix.

(** [os.path.join(a, b)] with the POSIX separator, for two components. *)
Definition os_path_join (a b : string) : string :=
  if String.prefix "/" b then b
  else if String.eqb a "" || endswith a "/" then a ++ b
  else a ++ "/" ++ b.

(** [os.path.basename(p)]: what follows the last separator. *)
Fixpoint basename_from (acc p : string) : string :=
  match p with
  | EmptyString => acc
  | String c rest =>
      if Ascii.eqb c "/"%char then basename_from "" rest
      else basename_from (acc ++ String c "") rest
  end.

Definition os_path_basename (p : string) : string := basename_from "" p.

(** [get_true_label(img_path)] *)
Definition get_true_label (img_path : string) : option string :=
  if contains "Autistics" img_path then Some "Autistic"
  else if contains "Non_Autistics" img_path then Some "Non_Autistic"
  else None.

(** The cell that lists the test images. *)
Definition test_dir : string := "data/test".
Definition autistic_dir : string := os_path_join test_dir "Autistic".
Definition non_autistic_dir : string := os_path_join test_dir "Non_Autistic".

Definition is_image (fname : string) : bool :=
  endswith fname ".jpg" || endswith fname ".jpeg" || endswith fname ".png".

(** [[os.path.join(dir, fname) for fname in os.listdir(dir)[45:52]
      if fname.endswith(('.jpg', '.jpeg', '.png'))]], the directory listing
    being given. *)
Definition listed_images (dir : string) (listdir : list string) : list string :=
  map (os_path_join dir) (filter is_image (firstn 7 (skipn 45 listdir))).

(** [test_images = autistic_images + non_autistic_images] *)
Definition test_images (listdir_autistic listdir_non_autistic : list string)
  : list string :=
  listed_images autistic_dir listdir_autistic ++
  listed_images non_autistic_dir listdir_non_autistic.

End Paths.

(* ===================================================================== *)
(** * The evaluation cell *)
(* ===================================================================== *)

Module Evaluation.

(** [true_label == predicted_label]; [None] equals no string. *)
Definition label_eq (true_label : option string) (predicted_label : string)
  : bool :=
  match true_label with
  | Some t => String.eqb t predicted_label
  | None => false
  end.

(** [a / b] on Python integers. *)
Definition truediv (a b : nat) : py Q :=
  if (b =? 0)%nat then raise ZeroDivisionError
  else ret (inject_Z (Z.of_nat a) / inject_Z (Z.of_nat b)).

(** The body of [for img_path in test_images], as a loop over the list that
    carries [correct_predictions]. *)
Fixpoint loop (fs : storage) (model : keras_model) (test_images : list string)
  (correct_predictions : nat) : py nat :=
  match test_images with
  | [] => ret correct_predictions
  | img_path :: rest =>
      let true_label := Paths.get_true_label img_path in
      r <- predict_asd fs img_path model ;;
      let predicted_label := fst r in
      let confidence := snd r in
      let is_correct := label_eq true_label predicted_label in
      let correct_predictions :=
        if is_correct then S correct_predictions else correct_predictions in
      emit (PrintLine (ImageLine (Paths.os_path_basename img_path))) ;;;
      emit (PrintLine (TrueLabelLine true_label)) ;;;
      emit (PrintLine (PredictedLine predicted_label confidence)) ;;;
      emit (PrintLine (CorrectLine is_correct)) ;;;
      loop fs model rest correct_predictions
  end.

(** The cell: returns [subset_accuracy]. *)
Definition evaluate (fs : storage) (model : keras_model)
  (test_images : list string) : py Q :=
  let correct_predictions := 0%nat in
  let total_images := List.length test_images in
  emit (PrintLine Header) ;;;
  correct_predictions <- loop fs model test_images correct_predictions ;;
  ratio <- truediv correct_predictions total_images ;;
  let subset_accuracy := ratio * 100 in
  emit (PrintLine (AccuracyLine subset_accuracy)) ;;;
  emit (PrintLine (CountLine correct_predictions total_images)) ;;;
  ret subset_accuracy.

(** Whether the label read from the path of a readable image equals the
    predicted one, and the number of such images in a list. *)
Definition is_correct (fs : storage) (model : keras_model) (img_path : string)
  : bool :=
  match fs img_path IMG_SIZE with
  | None => false
  | Some img =>
      label_eq (Paths.get_true_label img_path)
               (Inference.label (predict model (div255 img)))
  end.

Definition correct_count (fs : storage) (model : keras_model)
  (test_images : list string) : nat :=
  List.length (filter (is_correct fs model) test_images).

(** The events of one iteration that completes, for an image the storage
    holds. *)
Definition item_events (fs : storage) (model : keras_model)
  (img_path : string) : list event :=
  match fs img_path IMG_SIZE with
  | None => []
  | Some img =>
      let prediction := predict model (div255 img) in
      let true_label := Paths.get_true_label img_path in
      [ LoadImg img_path IMG_SIZE; Forward;
        PrintLine (ImageLine (Paths.os_path_basename img_path));
        PrintLine (TrueLabelLine true_label);
        PrintLine (PredictedLine (Inference.label prediction)
                             (Inference.confidence prediction));
        PrintLine
          (CorrectLine (label_eq true_label (Inference.label prediction))) ]
  end.

End Evaluation.

(* ===================================================================== *)
(** * Vocabulary of the statements: shapes, indexing, sums over an axis *)
(* ===================================================================== *)

Module Index.

(** [t] has shape [h] x [w] x [c]. *)
Definition has_shape3 {A} (h w c : nat) (t : list (list (list A))) : bool :=
  (List.length t =? h)%nat &&
  forallb (fun row =>
             (List.length row =? w)%nat &&
             forallb (fun px => (List.length px =? c)%nat) row) t.

(** The extents of a 2-d array, row by row. *)
Definition extents {A} (t : tensor2 A) : list nat := map (@List.length A) t.

Definition nth3 {A} (d : A) (t : list (list (list A))) (i j k : nat) : A :=
  nth k (nth j (nth i t []) []) d.

Definition at3 (t : tensor3) (i j k : nat) : Q := nth3 0 t i j k.

Definition at2 (t : tensor2 Q) (i j : nat) : Q := nth j (nth i t []) 0.

(** [f 0 + f 1 + ... + f (n-1)] *)
Definition sum_over (n : nat) (f : nat -> Q) : Q := Num.sum (map f (seq 0 n)).

(** Mean of channel [k] of [t] over the two spatial axes. *)
Definition spatial_mean (h w : nat) (t : tensor3) (k : nat) : Q :=
  sum_over h (fun i => sum_over w (fun j => at3 t i j k))
  / inject_Z (Z.of_nat (h * w)).

(** Dot product of the channel vector of [t] at [(i, j)] with [weights]. *)
Definition dot (c : nat) (t : tensor3) (i j : nat) (weights : list Q) : Q :=
  sum_over c (fun k => at3 t i j k * nth k weights 0).

(** Every entry of a 2-d array satisfies [P]. *)
Definition all2 {A} (P : A -> Prop) (t : tensor2 A) : Prop :=
  forall row, In row t -> forall v, In v row -> P v.

(** Some entry of a 2-d array satisfies [P]. *)
Definition some2 {A} (P : A -> Prop) (t : tensor2 A) : Prop :=
  exists row v, In row t /\ In v row /\ P v.

(** A finite float within [[lo, hi]]. *)
Definition fin_between (lo hi : Q) (v : np_float) : Prop :=
  exists q, v = Fin q /\ lo <= q <= hi.

(** A defined 8-bit value. *)
Definition is_uint8 (v : option Z) : Prop :=
  exists z, v = Some z /\ (0 <= z <= 255)%Z.

End Index.

Import Index.

(* ===================================================================== *)
(** * A small classifier and storage, used for concrete runs *)
(* ===================================================================== *)

Module Demo.

(** A uniformly orange RGB image, as loaded at a target size. *)
Definition img (target_size : nat * nat) : tensor3 :=
  repeat (repeat [255; 128; 0] (snd target_size)) (fst target_size).

(** A storage holding that image under one name and nothing else. *)
Definition fs : storage :=
  fun path target_size =>
    if String.eqb path "face.jpg" then Some (img target_size) else None.

(** A layer with a 1 x 1 feature map of one channel, on which the output
    probability depends with slope 1. *)
Definition conv_layer : layer :=
  {| output := fun _ => [[[1]]]; d_prediction := fun _ => [[[1]]] |}.

(** Two models sharing that layer: one decides for the positive class, one
    for the negative class. *)
Definition positive_model : keras_model :=
  {| layers := [("block14_sepconv2_act"%string, conv_layer)];
     predict := fun _ => 0.9 |}.

Definition negative_model : keras_model :=
  {| layers := [("block14_sepconv2_act"%string, conv_layer)];
     predict := fun _ => 0.2 |}.

End Demo.

(* ===================================================================== *)
(** * The visualisation cells *)
(* ===================================================================== *)

Module Render.

(** The colour table of [cv2.applyColorMap(heatmap, cv2.COLORMAP_JET)]:
    for each 8-bit level its colour, as three 8-bit channels in OpenCV's
    order blue, green, red.  The table is OpenCV's and is an argument. *)
Definition palette := Z -> list Z.

(** [cv2.applyColorMap(heatmap, cv2.COLORMAP_JET)].  An entry whose 8-bit
    value is not specified has a colour that is not specified either. *)
Definition applyColorMap (jet : palette) (heatmap : tensor2 (option Z))
  : list (list (list (option Z))) :=
  map (map (fun v => match v with
                     | Some z => map Some (jet z)
                     | None => [None; None; None]
                     end)) heatmap.

(** [cv2.cvtColor(heatmap, cv2.COLOR_BGR2RGB)]: the channels in reverse
    order. *)
Definition cvtColor_BGR2RGB {A} (img : list (list (list A)))
  : list (list (list A)) :=
  map (map (@rev A)) img.

(** Element by element over two arrays of one shape. *)
Definition zip3 {A B C} (f : A -> B -> C)
  (a : list (list (list A))) (b : list (list (list B)))
  : list (list (list C)) :=
  map (fun rows =>
         map (fun pxs => map (fun ch => f (fst ch) (snd ch))
                             (combine (fst pxs) (snd pxs)))
             (combine (fst rows) (snd rows)))
      (combine a b).

(** The blend of [Overlay.blend] where the heatmap colour is specified. *)
Definition blend (original_img : Q) (heatmap_rgb : option Z) : option Z :=
  match heatmap_rgb with
  | Some z => Overlay.blend original_img z
  | None => None
  end.

(** The lines between [get_gradcam_heatmap] and the figure: the heatmap in
    RGB and the overlay. *)
Definition colour_and_blend (jet : palette) (heatmap : tensor2 (option Z))
  (original_img : tensor3)
  : list (list (list (option Z))) * list (list (list (option Z))) :=
  let heatmap := applyColorMap jet heatmap in
  let heatmap := cvtColor_BGR2RGB heatmap in
  let overlay := zip3 blend original_img heatmap in
  (heatmap, overlay).

(** What one figure shows and what is printed under it: the colour heatmap
    (its 8-bit values; the cell displays them divided by 255), the overlay,
    and the label and confidence of the printed line.  The figure and the
    line are output only; the embedding hands their content back. *)
Record figure := {
  shown_heatmap : list (list (list (option Z)));
  shown_overlay : list (list (list (option Z)));
  printed_label : string;
  printed_confidence : Q
}.

(** The body shared by the single-image cell and the loop over
    [test_images]: heatmap (default layer name, [IMG_SIZE]), colours,
    overlay, then the prediction shown with the figure. *)
Definition explain (fs : storage) (resize : GradCam.resizer) (jet : palette)
  (model : keras_model) (img_path : string) : py figure :=
  r <- GradCam.get_gradcam_heatmap fs resize model img_path IMG_SIZE
         "block14_sepconv2_act" ;;
  let heatmap := fst r in
  let original_img := snd r in
  let shown := colour_and_blend jet heatmap original_img in
  p <- predict_asd fs img_path model ;;
  ret {| shown_heatmap := fst shown; shown_overlay := snd shown;
         printed_label := fst p; printed_confidence := snd p |}.

(** [for img_path in test_images: ...] of the cell that runs Grad-CAM on
    the listed images. *)
Fixpoint explain_all (fs : storage) (resize : GradCam.resizer) (jet : palette)
  (model : keras_model) (test_images : list string) : py (list figure) :=
  match test_images with
  | [] => ret []
  | img_path :: rest =>
      f <- explain fs resize jet model img_path ;;
      fs' <- explain_all fs resize jet model rest ;;
      ret (f :: fs')
  end.

End Render.

(* ===================================================================== *)
(** * Vocabulary of the statements: equal floats, scaled arrays *)
(* ===================================================================== *)

Module Relate.

(** Two floats that are the same value. *)
Definition same_float (a b : np_float) : Prop :=
  match a, b with
  | Fin x, Fin y => x == y
  | Inf s, Inf s' => s = s'
  | NaN, NaN => True
  | _, _ => False
  end.

(** [a] is [k] times [b]. *)
Definition scaled (k a b : Q) : Prop := a == k * b.

(** Every entry of a 3-d array multiplied by [k]. *)
Definition scale3 (k : Q) (t : tensor3) : tensor3 :=
  map (map (map (Qmult k))) t.

(** Every entry of a 3-d array satisfies [P]. *)
Definition all3 {A} (P : A -> Prop) (t : list (list (list A))) : Prop :=
  Forall (Forall (Forall P)) t.

End Relate.

(* ===================================================================== *)
(** * Theorems: inference and target selection *)
(* ===================================================================== *)

Lemma gt_true (a b : Q) : Num.gt a b = true <-> b < a.
Proof.
  unfold Num.gt. rewrite negb_true_iff.
  split; intro H.
  - apply Qnot_le_lt. intro Hle. apply Qle_bool_iff in Hle. congruence.
  - destruct (Qle_bool a b) eqn:E; [|reflexivity].
    apply Qle_bool_iff in E. exfalso. apply (Qlt_not_le _ _ H E).
Qed.

Lemma gt_false (a b : Q) : Num.gt a b = false <-> a <= b.
Proof.
  unfold Num.gt. rewrite negb_false_iff. apply Qle_bool_iff.
Qed.

Lemma gt_spec (a b : Q) : BoolSpec (b < a) (a <= b) (Num.gt a b).
Proof.
  destruct (Num.gt a b) eqn:E; constructor.
  - now apply gt_true.
  - now apply gt_false.
Qed.

Lemma half_is_half : 0.5 == 1 # 2.
Proof. reflexivity. Qed.

Lemma predict_asd_loaded (fs : storage) (model : keras_model) (path : string)
  (img : tensor3) (log : list event) :
  fs path IMG_SIZE = Some img ->
  predict_asd fs path model log =
  (Returns (Inference.label (predict model (div255 img)),
            Inference.confidence (predict model (div255 img))),
   log ++ [LoadImg path IMG_SIZE; Forward]).
Proof.
  intro H. unfold predict_asd, load_img, bind, emit, ret. rewrite H.
  now rewrite <- app_assoc.
Qed.

Lemma predict_asd_unreadable (fs : storage) (model : keras_model)
  (path : string) (log : list event) :
  fs path IMG_SIZE = None ->
  predict_asd fs path model log =
  (Raises OSError, log ++ [LoadImg path IMG_SIZE]).
Proof.
  intro H. unfold predict_asd, load_img, bind, emit, raise. now rewrite H.
Qed.

(** C5. For an image the storage holds, with [p] in [0,1] the probability
    the model returns for it, [predict_asd] returns the label 'Autistic'
    when [p > 0.5] and 'Non_Autistic' otherwise, with a confidence equal to
    [max(p, 1-p)], which lies between 0.5 and 1. *)
Theorem predict_asd_label_confidence (fs : storage) (model : keras_model)
  (image_path : string) (img : tensor3) :
  fs image_path IMG_SIZE = Some img ->
  let p := predict model (div255 img) in
  0 <= p <= 1 ->
  exists label confidence,
    fst (run (predict_asd fs image_path model)) = Returns (label, confidence) /\
    (0.5 < p -> label = "Autistic"%string) /\
    (p <= 0.5 -> label = "Non_Autistic"%string) /\
    confidence == Qmax p (1 - p) /\
    0.5 <= confidence <= 1.
Proof.
  intros Hfs p [H0 H1].
  exists (Inference.label p), (Inference.confidence p).
  split.
  { unfold run.
    now rewrite (predict_asd_loaded fs model image_path img [] Hfs). }
  unfold Inference.label, Inference.confidence.
  pose proof half_is_half as Hh.
  destruct (gt_spec p 0.5) as [Hgt | Hle].
  - split; [reflexivity|]. split; [intro; lra|].
    split; [|lra].
    symmetry. apply Q.max_l. lra.
  - split; [intro; lra|]. split; [reflexivity|].
    split; [|lra].
    symmetry. apply Q.max_r. lra.
Qed.

Lemma predict_asd_label_confidence_witness :
  exists confidence,
    fst (run (predict_asd Demo.fs "face.jpg" Demo.positive_model)) =
      Returns ("Autistic"%string, confidence) /\
    confidence == Qmax 0.9 (1 - 0.9).
Proof.
  destruct (predict_asd_label_confidence Demo.fs Demo.positive_model
              "face.jpg" (Demo.img IMG_SIZE) eq_refl)
    as (label & confidence & Hrun & Ha & _ & Hc & _).
  - split; discriminate.
  - exists confidence. split; [|exact Hc].
    rewrite Hrun. now rewrite Ha.
Defined.

(** C1. For every image that loads and every model that has the named
    layer, [get_gradcam_heatmap] explains the target score [s = p] when
    [p > 0.5] and [s = 1 - p] otherwise: [s] is the value of the selected
    loss and the score of the class [predict_asd] reports (its
    confidence), the gradient the tape hands to the pooling step is the
    gradient of [s] (the layer's [d_prediction] for the positive decision,
    its negation for the negative one), and what the function returns is
    the heatmap computed from that gradient, never the heatmap of one
    fixed class. *)
Theorem gradcam_target_score
  (fs : storage) (resize : GradCam.resizer) (model : keras_model)
  (img_path : string) (img_size : nat * nat) (name : string)
  (img : tensor3) (l : layer) :
  fs img_path img_size = Some img ->
  find_layer (layers model) name = Some l ->
  let x := div255 img in
  let p := predict model x in
  let s := if Num.gt p 0.5 then p else 1 - p in
  let gradient_of_s :=
    if Num.gt p 0.5 then d_prediction l x
    else map (map (map Qopp)) (d_prediction l x) in
  Target.loss_value (Target.loss p) p = s /\
  s = Inference.confidence p /\
  Target.loss p =
    (if String.eqb (Inference.label p) "Autistic"
     then Target.Prediction else Target.OneMinusPrediction) /\
  (forall d_pred,
     Target.tape_gradient (Target.loss p) d_pred =
     (if Num.gt p 0.5 then d_pred else map (map (map Qopp)) d_pred)) /\
  fst (run (GradCam.get_gradcam_heatmap fs resize model img_path img_size
              name)) =
    match GradCam.normalized_heatmap (output l x) gradient_of_s with
    | Returns heatmap =>
        Returns (GradCam.to_uint8 resize heatmap img_size, img)
    | Raises e => Raises e
    end.
Proof.
  intros Hfs Hl x p s gradient_of_s.
  assert (Hloss : Target.loss p =
                  (if Num.gt p 0.5 then Target.Prediction
                   else Target.OneMinusPrediction)).
  { unfold Target.loss, Target.predicted_class.
    destruct (Num.gt p 0.5); reflexivity. }
  assert (Hgrad : forall d_pred,
             Target.tape_gradient (Target.loss p) d_pred =
             (if Num.gt p 0.5 then d_pred else map (map (map Qopp)) d_pred)).
  { intro d_pred. rewrite Hloss. destruct (Num.gt p 0.5); reflexivity. }
  split; [|split; [|split; [|split]]].
  - rewrite Hloss. unfold s. destruct (Num.gt p 0.5); reflexivity.
  - reflexivity.
  - rewrite Hloss. unfold Inference.label.
    destruct (Num.gt p 0.5); reflexivity.
  - exact Hgrad.
  - unfold run, GradCam.get_gradcam_heatmap, load_img, get_layer, bind,
      emit, lift, ret.
    rewrite Hfs, Hl. fold x. fold p. rewrite (Hgrad (d_prediction l x)).
    fold gradient_of_s.
    destruct (GradCam.normalized_heatmap (output l x) gradient_of_s);
      reflexivity.
Qed.

(** At a layer on which the probability falls with the activation, a
    negative decision (p = 0.2) is explained by the gradient of 1 - p: the
    single location is fully lit.  The gradient of p itself would give the
    heatmap of the other class, which is blank there. *)
Lemma gradcam_target_score_witness :
  let falling :=
    {| output := fun _ => [[[1]]]; d_prediction := fun _ => [[[-(1)]]] |} in
  let model := {| layers := [("conv"%string, falling)];
                  predict := fun _ => 0.2 |} in
  fst (run (GradCam.get_gradcam_heatmap Demo.fs Cv2.resize_linear model
              "face.jpg" (2, 2)%nat "conv")) =
    Returns ([[Some 255%Z; Some 255%Z]; [Some 255%Z; Some 255%Z]],
             Demo.img (2, 2)%nat) /\
  GradCam.normalized_heatmap [[[1]]] [[[-(1)]]] = Returns [[NaN]].
Proof.
  intros falling model.
  destruct (gradcam_target_score Demo.fs Cv2.resize_linear model "face.jpg"
              (2, 2)%nat "conv" (Demo.img (2, 2)%nat) falling
              eq_refl eq_refl) as (_ & _ & _ & _ & Hrun).
  split; [|reflexivity].
  rewrite Hrun. vm_compute. reflexivity.
Defined.

(* ===================================================================== *)
(** * Sums over an axis *)
(* ===================================================================== *)

Lemma sum_app (l1 l2 : list Q) : Num.sum (l1 ++ l2) == Num.sum l1 + Num.sum l2.
Proof.
  unfold Num.sum.
  induction l1 as [|a l1 IH]; cbn.
  - lra.
  - rewrite IH. lra.
Qed.

Lemma map_nth_seq {A B} (g : A -> B) (d : A) (l : list A) :
  map g l = map (fun j => g (nth j l d)) (seq 0 (List.length l)).
Proof.
  induction l as [|a l IH]; cbn; [reflexivity|].
  f_equal. rewrite <- seq_shift, map_map. exact IH.
Qed.

Lemma sum_over_S (n : nat) (f : nat -> Q) :
  sum_over (S n) f = f 0%nat + sum_over n (fun i => f (S i)).
Proof.
  unfold sum_over. cbn. now rewrite <- seq_shift, map_map.
Qed.

Lemma sum_map_nth {A} (g : A -> Q) (d : A) (l : list A) :
  Num.sum (map g l) = sum_over (List.length l) (fun j => g (nth j l d)).
Proof. unfold sum_over. now rewrite (map_nth_seq g d l). Qed.

(* ===================================================================== *)
(** * Shapes *)
(* ===================================================================== *)

Lemma has_shape3_cons {A} (h w c : nat) (row : list (list A))
  (t : list (list (list A))) :
  has_shape3 h w c (row :: t) = true ->
  exists h', h = S h' /\ List.length row = w /\
             Forall (fun px => List.length px = c) row /\
             has_shape3 h' w c t = true.
Proof.
  unfold has_shape3. cbn [List.length forallb].
  rewrite !andb_true_iff. intros (Hl & (Hw & Hc) & Ht).
  apply Nat.eqb_eq in Hl, Hw.
  exists (List.length t). repeat split; auto.
  - apply Forall_forall. intros px Hin.
    rewrite forallb_forall in Hc. apply Nat.eqb_eq. now apply Hc.
  - now rewrite Nat.eqb_refl.
Qed.

Lemma has_shape3_nil {A} (h w c : nat) :
  @has_shape3 A h w c [] = true -> h = 0%nat.
Proof.
  unfold has_shape3. destruct h; cbn; [reflexivity | discriminate].
Qed.

Lemma has_shape3_nth {A} (h w c : nat) (t : list (list (list A))) (i j : nat) :
  has_shape3 h w c t = true -> (i < h)%nat -> (j < w)%nat ->
  List.length (nth i t []) = w /\ List.length (nth j (nth i t []) []) = c.
Proof.
  revert h i. induction t as [|row t IH]; intros h i Hs Hi Hj.
  - apply has_shape3_nil in Hs. lia.
  - apply has_shape3_cons in Hs. destruct Hs as (h' & -> & Hw & Hc & Ht).
    destruct i as [|i]; cbn [nth].
    + split; [exact Hw|].
      rewrite Forall_forall in Hc. apply Hc. apply nth_In. lia.
    + apply (IH h'); auto. lia.
Qed.

Lemma channel_cons (k : nat) (row : list (list Q)) (t : tensor3) :
  channel k (row :: t) = map (fun px => nth k px 0) row ++ channel k t.
Proof. unfold channel. cbn. now rewrite map_app. Qed.

Lemma sum_channel (h w c : nat) (t : tensor3) (k : nat) :
  has_shape3 h w c t = true ->
  Num.sum (channel k t) ==
  sum_over h (fun i => sum_over w (fun j => at3 t i j k)).
Proof.
  revert h. induction t as [|row t IH]; intros h Hs.
  - apply has_shape3_nil in Hs. subst h. reflexivity.
  - apply has_shape3_cons in Hs. destruct Hs as (h' & -> & Hw & _ & Ht).
    rewrite channel_cons, sum_app, sum_over_S, (IH h' Ht).
    rewrite (sum_map_nth (fun px => nth k px 0) [] row), Hw.
    reflexivity.
Qed.

Lemma length_channel (h w c : nat) (t : tensor3) (k : nat) :
  has_shape3 h w c t = true -> List.length (channel k t) = (h * w)%nat.
Proof.
  revert h. induction t as [|row t IH]; intros h Hs.
  - apply has_shape3_nil in Hs. now subst h.
  - apply has_shape3_cons in Hs. destruct Hs as (h' & -> & Hw & _ & Ht).
    rewrite channel_cons, length_app, length_map, (IH h' Ht), Hw. lia.
Qed.

Lemma channels_shape (h w c : nat) (t : tensor3) :
  has_shape3 h w c t = true -> (0 < h)%nat -> (0 < w)%nat -> channels t = c.
Proof.
  intros Hs Hh Hw. destruct t as [|row t].
  - apply has_shape3_nil in Hs. lia.
  - apply has_shape3_cons in Hs. destruct Hs as (h' & -> & Hl & Hc & _).
    destruct row as [|px row]; [cbn in Hl; lia|].
    unfold channels. cbn. now inversion Hc.
Qed.

Lemma nth_map_in {A B} (f : A -> B) (l : list A) (d : A) (d' : B) (i : nat) :
  (i < List.length l)%nat -> nth i (map f l) d' = f (nth i l d).
Proof.
  intro Hi. rewrite (nth_indep _ d' (f d)) by now rewrite length_map.
  apply map_nth.
Qed.

Lemma extents_map {A B} (f : A -> B) (t : tensor2 A) :
  extents (map (map f) t) = extents t.
Proof.
  unfold extents. rewrite map_map. apply map_ext. intro row. apply length_map.
Qed.

Lemma extents_shape (h w c : nat) (t : tensor3) :
  has_shape3 h w c t = true -> extents t = repeat w h.
Proof.
  revert h. induction t as [|row t IH]; intros h Hs.
  - apply has_shape3_nil in Hs. now subst h.
  - apply has_shape3_cons in Hs. destruct Hs as (h' & -> & Hw & _ & Ht).
    specialize (IH h' Ht). unfold extents in *. cbn. now rewrite Hw, IH.
Qed.

Lemma has_shape3_length {A} (h w c : nat) (t : list (list (list A))) :
  has_shape3 h w c t = true -> List.length t = h.
Proof.
  unfold has_shape3. rewrite andb_true_iff. intros [H _]. now apply Nat.eqb_eq.
Qed.

Lemma sum_weighted (c : nat) (px weights : list Q) :
  List.length px = c -> List.length weights = c ->
  Num.sum (map (fun aw => fst aw * snd aw) (combine px weights)) =
  sum_over c (fun k => nth k px 0 * nth k weights 0).
Proof.
  intros Hp Hw.
  rewrite (sum_map_nth (fun aw => fst aw * snd aw) (0, 0) (combine px weights)).
  rewrite length_combine, Hp, Hw, Nat.min_id.
  unfold sum_over. f_equal. apply map_ext. intro k.
  rewrite combine_nth by congruence. reflexivity.
Qed.

Lemma pooled_grads_length (h w c : nat) (grads : tensor3) :
  has_shape3 h w c grads = true -> (0 < h)%nat -> (0 < w)%nat ->
  List.length (GradCam.pooled_grads grads) = c.
Proof.
  intros Hs Hh Hw. unfold GradCam.pooled_grads, reduce_mean_01.
  now rewrite length_map, length_seq, (channels_shape h w c).
Qed.

Lemma pooled_grads_nth (h w c : nat) (grads : tensor3) (k : nat) :
  has_shape3 h w c grads = true -> (0 < h)%nat -> (0 < w)%nat -> (k < c)%nat ->
  nth k (GradCam.pooled_grads grads) 0 == spatial_mean h w grads k.
Proof.
  intros Hs Hh Hw Hk. unfold GradCam.pooled_grads, reduce_mean_01.
  rewrite (channels_shape h w c) by assumption.
  rewrite (nth_map_in _ _ 0%nat) by now rewrite length_seq.
  rewrite seq_nth by assumption. cbn [Nat.add].
  unfold Num.mean, spatial_mean.
  rewrite (length_channel h w c) by assumption.
  now rewrite (sum_channel h w c) by assumption.
Qed.

Lemma raw_heatmap_at (h w c : nat) (conv_outputs : tensor3) (weights : list Q)
  (i j : nat) :
  has_shape3 h w c conv_outputs = true -> List.length weights = c ->
  (i < h)%nat -> (j < w)%nat ->
  at2 (reduce_mean_last (multiply conv_outputs weights)) i j =
  dot c conv_outputs i j weights / inject_Z (Z.of_nat c).
Proof.
  intros Hs Hl Hi Hj.
  destruct (has_shape3_nth h w c conv_outputs i j Hs Hi Hj) as [Hrow Hpx].
  unfold at2, reduce_mean_last, multiply. rewrite !map_map.
  rewrite (nth_map_in _ _ [])
    by now rewrite (has_shape3_length h w c).
  rewrite map_map.
  rewrite (nth_map_in _ _ []) by now rewrite Hrow.
  unfold Num.mean.
  rewrite (sum_weighted c) by assumption.
  rewrite length_map, length_combine, Hpx, Hl, Nat.min_id.
  reflexivity.
Qed.

(** C2 (as amended).  For a gradient field and a feature map of shape
    height' x width' x channels', the channel weights are one per channel,
    each the mean of the gradient over the two spatial axes; the raw
    heatmap has the spatial shape of the feature map and at each location
    equals the MEAN over the channels of activation times weight, that is
    the dot product divided by channels'. *)
Theorem channel_weights_and_raw_heatmap
  (h w c : nat) (conv_outputs grads : tensor3) :
  has_shape3 h w c conv_outputs = true ->
  has_shape3 h w c grads = true ->
  (0 < h)%nat -> (0 < w)%nat -> (0 < c)%nat ->
  List.length (GradCam.pooled_grads grads) = c /\
  (forall k, (k < c)%nat ->
     nth k (GradCam.pooled_grads grads) 0 == spatial_mean h w grads k) /\
  extents (GradCam.raw_heatmap conv_outputs grads) = repeat w h /\
  (forall i j, (i < h)%nat -> (j < w)%nat ->
     at2 (GradCam.raw_heatmap conv_outputs grads) i j ==
     dot c conv_outputs i j (GradCam.pooled_grads grads)
     / inject_Z (Z.of_nat c)).
Proof.
  intros Hc Hg Hh Hw _.
  pose proof (pooled_grads_length h w c grads Hg Hh Hw) as Hlen.
  split; [exact Hlen|]. split.
  - intros k Hk. now apply (pooled_grads_nth h w c).
  - split.
    + unfold GradCam.raw_heatmap, reduce_mean_last, multiply.
      rewrite !extents_map. now apply (extents_shape h w c).
    + intros i j Hi Hj. unfold GradCam.raw_heatmap.
      now rewrite (raw_heatmap_at h w c).
Qed.

Lemma channel_weights_and_raw_heatmap_witness :
  let conv_outputs := [[[1; 2]; [3; 4]]] in
  let grads := [[[1; 0]; [3; 2]]] in
  GradCam.pooled_grads grads = [ (1 + (3 + 0)) / 2 ; (0 + (2 + 0)) / 2 ] /\
  nth 0 (GradCam.pooled_grads grads) 0 == spatial_mean 1 2 grads 0 /\
  at2 (GradCam.raw_heatmap conv_outputs grads) 0 1 ==
  dot 2 conv_outputs 0 1 (GradCam.pooled_grads grads) / 2.
Proof.
  intros conv_outputs grads.
  destruct (channel_weights_and_raw_heatmap 1 2 2 conv_outputs grads
              eq_refl eq_refl) as (_ & Hmean & _ & Hraw); [lia | lia | lia |].
  split; [reflexivity|].
  split; [apply Hmean; lia | apply (Hraw 0%nat 1%nat); lia].
Defined.

(** C2 as stated fails: with two channels, activations (1, 1) and gradients
    (1, 1), the weights are (1, 1) and the dot product is 2, while the code
    computes the mean 1. *)
Lemma raw_heatmap_is_not_dot_product :
  let conv_outputs := [[[1; 1]]] in
  let grads := [[[1; 1]]] in
  dot 2 conv_outputs 0 0 (GradCam.pooled_grads grads) == 2 /\
  at2 (GradCam.raw_heatmap conv_outputs grads) 0 0 == 1 /\
  ~ at2 (GradCam.raw_heatmap conv_outputs grads) 0 0 ==
    dot 2 conv_outputs 0 0 (GradCam.pooled_grads grads).
Proof.
  cbv zeta. split; [reflexivity|]. split; [reflexivity|].
  intro H. vm_compute in H. discriminate.
Qed.

(* ===================================================================== *)
(** * The maximum of the heatmap and the normalisation *)
(* ===================================================================== *)

Lemma Qmax_cases (a b : Q) : Qmax a b = a \/ Qmax a b = b.
Proof.
  unfold Qmax, GenericMinMax.gmax. destruct (a ?= b); auto.
Qed.

Lemma fold_left_Qmax_in (vs : list Q) (v : Q) :
  In (fold_left Qmax vs v) (v :: vs).
Proof.
  revert v. induction vs as [|a vs IH]; intro v; cbn [fold_left].
  - now left.
  - destruct (IH (Qmax v a)) as [H | H].
    + destruct (Qmax_cases v a) as [E | E]; rewrite E in *.
      * left. exact H.
      * right. left. exact H.
    + right. right. exact H.
Qed.

Lemma fold_left_Qmax_le (vs : list Q) (v x : Q) :
  x <= v -> x <= fold_left Qmax vs v.
Proof.
  revert v. induction vs as [|a vs IH]; intros v H; cbn [fold_left].
  - exact H.
  - apply IH. apply Qle_trans with v; [exact H | apply Q.le_max_l].
Qed.

Lemma fold_left_Qmax_ge (vs : list Q) (v x : Q) :
  In x (v :: vs) -> x <= fold_left Qmax vs v.
Proof.
  revert v. induction vs as [|a vs IH]; intros v [-> | H]; cbn [fold_left].
  - apply Qle_refl.
  - destruct H.
  - apply fold_left_Qmax_le, Q.le_max_l.
  - destruct H as [-> | H].
    + apply fold_left_Qmax_le, Q.le_max_r.
    + apply IH. now right.
Qed.

Lemma amax_spec (heatmap : tensor2 Q) (m : Q) :
  amax heatmap = Returns m ->
  In m (List.concat heatmap) /\ all2 (fun v => v <= m) heatmap.
Proof.
  unfold amax. destruct (List.concat heatmap) as [|v vs] eqn:E; [discriminate|].
  intro H. injection H as <-. split.
  - apply fold_left_Qmax_in.
  - intros row Hrow x Hx. apply fold_left_Qmax_ge.
    rewrite <- E. apply in_concat. now exists row.
Qed.

Lemma amax_returns (heatmap : tensor2 Q) :
  some2 (fun _ => True) heatmap -> exists m, amax heatmap = Returns m.
Proof.
  intros (row & v & Hrow & Hv & _). unfold amax.
  destruct (List.concat heatmap) as [|a l] eqn:E.
  - assert (H : In v (List.concat heatmap))
      by (apply in_concat; now exists row).
    rewrite E in H. destruct H.
  - now eexists.
Qed.

Lemma maximum0_nonneg (heatmap : tensor2 Q) :
  all2 (fun v => 0 <= v) (maximum0 heatmap).
Proof.
  intros row Hrow v Hv. unfold maximum0 in Hrow.
  apply in_map_iff in Hrow. destruct Hrow as (row0 & <- & _).
  apply in_map_iff in Hv. destruct Hv as (v0 & <- & _).
  apply Q.le_max_r.
Qed.

Lemma true_divide_zero (v m : Q) : v == 0 -> m == 0 -> true_divide v m = NaN.
Proof.
  intros Hv Hm. unfold true_divide.
  apply Qeq_bool_iff in Hv, Hm. now rewrite Hv, Hm.
Qed.

Lemma true_divide_pos (v m : Q) : 0 < m -> true_divide v m = Fin (v / m).
Proof.
  intro Hm. unfold true_divide.
  destruct (Qeq_bool m 0) eqn:E; [|reflexivity].
  apply Qeq_bool_iff in E. lra.
Qed.

Lemma map2_ext_in {A B} (f g : A -> B) (t : tensor2 A) :
  all2 (fun v => f v = g v) t -> map (map f) t = map (map g) t.
Proof.
  intro H. apply map_ext_in. intros row Hrow.
  apply map_ext_in. intros v Hv. now apply (H row).
Qed.

(** C3 (what the code does).  When the clipped heatmap has maximum zero the
    division raises nothing and every entry of the result is NaN, the
    float value of 0/0: the map is not the all-zero map. *)
Theorem zero_maximum_gives_nan (conv_outputs grads : tensor3) (m : Q) :
  amax (GradCam.relu_heatmap conv_outputs grads) = Returns m ->
  m == 0 ->
  GradCam.normalized_heatmap conv_outputs grads =
    Returns (map (map (fun _ => NaN))
                 (GradCam.relu_heatmap conv_outputs grads)).
Proof.
  intros Hmax Hm. unfold GradCam.normalized_heatmap, normalize.
  rewrite Hmax. f_equal. apply map2_ext_in.
  intros row Hrow v Hv. apply true_divide_zero; [|exact Hm].
  destruct (amax_spec _ _ Hmax) as [_ Hle].
  pose proof (maximum0_nonneg (GradCam.raw_heatmap conv_outputs grads)
                row Hrow v Hv) as H0.
  specialize (Hle row Hrow v Hv). cbv beta in *. lra.
Qed.

Lemma zero_maximum_gives_nan_witness :
  let conv_outputs := [[[1]]] in
  let grads := Target.tape_gradient (Target.loss 0.2) [[[1]]] in
  grads = [[[-(1)]]] /\
  GradCam.relu_heatmap conv_outputs grads = [[Qmax (1 * (-(1) / 1) / 1) 0]] /\
  GradCam.normalized_heatmap conv_outputs grads = Returns [[NaN]].
Proof.
  intros conv_outputs grads.
  split; [reflexivity|]. split; [reflexivity|].
  exact (zero_maximum_gives_nan conv_outputs grads
           (Qmax (1 * (-(1) / 1) / 1) 0) eq_refl eq_refl).
Defined.

Lemma all2_map {A B} (P : B -> Prop) (f : A -> B) (t : tensor2 A) :
  all2 (fun v => P (f v)) t -> all2 P (map (map f) t).
Proof.
  intros H row Hrow v Hv.
  apply in_map_iff in Hrow. destruct Hrow as (row0 & <- & Hrow0).
  apply in_map_iff in Hv. destruct Hv as (v0 & <- & Hv0).
  now apply (H row0).
Qed.

Lemma some2_map {A B} (P : B -> Prop) (f : A -> B) (t : tensor2 A) :
  some2 (fun v => P (f v)) t -> some2 P (map (map f) t).
Proof.
  intros (row & v & Hrow & Hv & HP).
  exists (map f row), (f v). repeat split; auto using in_map.
Qed.

Lemma unit_quotient (v m : Q) : 0 <= v -> v <= m -> 0 < m -> 0 <= v / m <= 1.
Proof.
  intros H0 Hle Hm. split.
  - apply Qle_shift_div_l; [exact Hm | lra].
  - apply Qle_shift_div_r; [exact Hm | lra].
Qed.

Lemma relu_positive (heatmap : tensor2 Q) :
  some2 (fun v => 0 < v) heatmap -> some2 (fun v => 0 < v) (maximum0 heatmap).
Proof.
  intro H. unfold maximum0. apply some2_map.
  destruct H as (row & v & Hrow & Hv & Hpos).
  exists row, v. repeat split; auto.
  apply Qlt_le_trans with v; [exact Hpos | apply Q.le_max_l].
Qed.

(** The normalisation when some clipped entry is positive: finite values
    between 0 and 1, the value 1 being attained. *)
Lemma normalize_positive (heatmap : tensor2 Q) :
  all2 (fun v => 0 <= v) heatmap ->
  some2 (fun v => 0 < v) heatmap ->
  exists m, 0 < m /\
    amax heatmap = Returns m /\
    normalize heatmap = Returns (map (map (fun v => Fin (v / m))) heatmap) /\
    all2 (fin_between 0 1) (map (map (fun v => Fin (v / m))) heatmap) /\
    some2 (fun v => exists q, v = Fin q /\ q == 1)
          (map (map (fun v => Fin (v / m))) heatmap).
Proof.
  intros Hnn Hpos.
  destruct (amax_returns heatmap) as [m Hm].
  { destruct Hpos as (row & v & Hrow & Hv & _). now exists row, v. }
  destruct (amax_spec _ _ Hm) as [Hin Hle].
  assert (Hmpos : 0 < m).
  { destruct Hpos as (row & v & Hrow & Hv & Hp).
    apply Qlt_le_trans with v; [exact Hp | now apply (Hle row)]. }
  exists m. split; [exact Hmpos|]. split; [exact Hm|]. split; [|split].
  - unfold normalize. rewrite Hm. f_equal. apply map2_ext_in.
    intros row Hrow v Hv. now apply true_divide_pos.
  - apply all2_map. intros row Hrow v Hv. exists (v / m). split; [reflexivity|].
    apply unit_quotient;
      [now apply (Hnn row) | now apply (Hle row) | exact Hmpos].
  - apply some2_map. apply in_concat in Hin.
    destruct Hin as (row & Hrow & Hmrow).
    exists row, m. repeat split; auto.
    exists (m / m). split; [reflexivity|]. field. lra.
Qed.

Lemma trunc_nonneg (q : Q) : 0 <= q -> trunc q = Qfloor q.
Proof.
  intro H. unfold trunc. apply Qle_bool_iff in H. now rewrite H.
Qed.

Lemma uint8_of_Q_in_range (q : Q) :
  0 <= q <= 255 -> uint8_of_Q q = Some (Qfloor q) /\ (0 <= Qfloor q <= 255)%Z.
Proof.
  intros [H0 H1].
  assert (Hr : (0 <= Qfloor q <= 255)%Z).
  { split.
    - change 0%Z with (Qfloor 0). now apply Qfloor_resp_le.
    - change 255%Z with (Qfloor 255). now apply Qfloor_resp_le. }
  split; [|exact Hr].
  unfold uint8_of_Q. rewrite (trunc_nonneg q H0).
  destruct Hr as [Ha Hb].
  apply Z.leb_le in Ha, Hb. now rewrite Ha, Hb.
Qed.

Lemma scaled_unit_is_uint8 (v : np_float) :
  fin_between 0 1 v -> is_uint8 (astype_uint8 (mul (Fin 255) v)).
Proof.
  intros (q & -> & H0 & H1). cbn [mul astype_uint8].
  destruct (uint8_of_Q_in_range (255 * q)) as [E R]; [lra|].
  exists (Qfloor (255 * q)). now split.
Qed.

Section ReturnedHeatmap.

(** What is required of [cv2.resize]: the result has [dsize[1]] rows of
    [dsize[0]] entries, and resampling a rectangular array with at least
    one entry whose values are finite and lie in an interval stays
    finite and in that interval (an interpolation with non-negative
    weights of sum one). *)
Variable resize : GradCam.resizer.

Hypothesis resize_extents :
  forall src dsize, extents (resize src dsize) = repeat (fst dsize) (snd dsize).

Hypothesis resize_range :
  forall src dsize h w lo hi,
    extents src = repeat w h -> (0 < h)%nat -> (0 < w)%nat ->
    all2 (fin_between lo hi) src ->
    all2 (fin_between lo hi) (resize src dsize).

Lemma to_uint8_extents (heatmap : tensor2 np_float) (img_size : nat * nat) :
  extents (GradCam.to_uint8 resize heatmap img_size) =
  repeat (snd img_size) (fst img_size).
Proof.
  unfold GradCam.to_uint8. rewrite extents_map, resize_extents. reflexivity.
Qed.

Lemma to_uint8_defined (h w : nat) (heatmap : tensor2 np_float)
  (img_size : nat * nat) :
  extents heatmap = repeat w h -> (0 < h)%nat -> (0 < w)%nat ->
  all2 (fin_between 0 1) heatmap ->
  all2 is_uint8 (GradCam.to_uint8 resize heatmap img_size).
Proof.
  intros He Hh Hw Hall. unfold GradCam.to_uint8. apply all2_map.
  intros row Hrow v Hv. apply scaled_unit_is_uint8.
  exact (resize_range heatmap (snd img_size, fst img_size) h w 0 1
           He Hh Hw Hall row Hrow v Hv).
Qed.

(** C4 (as amended).  When the storage holds the image, the model has the
    named layer, its feature map has shape height' x width' x channels'
    and some raw contribution is positive, the heatmap after the division
    has the feature map's resolution, finite values between 0 and 1, and
    the value 1 somewhere; [get_gradcam_heatmap] returns, with the image,
    that map resized to [img_size] and scaled to 8-bit values 0..255.
    (The gradient has the shape of the feature map, as the tape gives
    it.) *)
Theorem gradcam_heatmap_positive
  (fs : storage) (model : keras_model) (img_path name : string)
  (img_size : nat * nat) (img : tensor3) (l : layer) (h w c : nat) :
  fs img_path img_size = Some img ->
  find_layer (layers model) name = Some l ->
  let x := div255 img in
  let conv_outputs := output l x in
  let grads :=
    Target.tape_gradient (Target.loss (predict model x)) (d_prediction l x) in
  has_shape3 h w c conv_outputs = true ->
  has_shape3 h w c grads = true ->
  (0 < h)%nat -> (0 < w)%nat -> (0 < c)%nat ->
  some2 (fun v => 0 < v) (GradCam.raw_heatmap conv_outputs grads) ->
  exists heatmap,
    GradCam.normalized_heatmap conv_outputs grads = Returns heatmap /\
    extents heatmap = repeat w h /\
    all2 (fin_between 0 1) heatmap /\
    some2 (fun v => exists q, v = Fin q /\ q == 1) heatmap /\
    fst (run (GradCam.get_gradcam_heatmap fs resize model img_path img_size
                name)) =
      Returns (GradCam.to_uint8 resize heatmap img_size, img) /\
    extents (GradCam.to_uint8 resize heatmap img_size) =
      repeat (snd img_size) (fst img_size) /\
    all2 is_uint8 (GradCam.to_uint8 resize heatmap img_size).
Proof.
  intros Hfs Hl x conv_outputs grads Hs _ Hh Hw _ Hpos.
  destruct (normalize_positive (GradCam.relu_heatmap conv_outputs grads))
    as (m & Hm & _ & Hnorm & Hrange & Hone).
  { apply maximum0_nonneg. }
  { now apply relu_positive. }
  set (heatmap := map (map (fun v => Fin (v / m)))
                      (GradCam.relu_heatmap conv_outputs grads)) in *.
  assert (Hext : extents heatmap = repeat w h).
  { unfold heatmap, GradCam.relu_heatmap, maximum0, GradCam.raw_heatmap,
      reduce_mean_last, multiply.
    rewrite !extents_map. now apply (extents_shape h w c). }
  exists heatmap. split; [exact Hnorm|]. split; [exact Hext|].
  split; [exact Hrange|]. split; [exact Hone|]. split; [|split].
  - unfold run, GradCam.get_gradcam_heatmap, load_img, get_layer, bind,
      emit, lift, ret.
    rewrite Hfs, Hl. fold x. fold conv_outputs. fold grads.
    change (GradCam.normalized_heatmap conv_outputs grads)
      with (normalize (GradCam.relu_heatmap conv_outputs grads)).
    rewrite Hnorm. reflexivity.
  - apply to_uint8_extents.
  - now apply (to_uint8_defined h w).
Qed.

End ReturnedHeatmap.

(* ===================================================================== *)
(** * Bilinear resampling meets the requirements on [cv2.resize] *)
(* ===================================================================== *)

Lemma extents_rows {A} (n w : nat) (f : nat -> list A) :
  (forall i, List.length (f i) = w) ->
  extents (map f (seq 0 n)) = repeat w n.
Proof.
  intro H. unfold extents. rewrite map_map.
  rewrite (map_ext _ (fun _ => w)) by exact H.
  now rewrite map_const, length_seq.
Qed.

Lemma resize_linear_extents (src : tensor2 np_float) (dsize : nat * nat) :
  extents (Cv2.resize_linear src dsize) = repeat (fst dsize) (snd dsize).
Proof.
  unfold Cv2.resize_linear. apply extents_rows. intro dy.
  destruct (Cv2.coord (List.length src) (snd dsize) dy) as [sy fy].
  now rewrite length_map, length_seq.
Qed.

Lemma coord_in_range (s d i : nat) :
  (0 < s)%nat ->
  (fst (Cv2.coord s d i) < s)%nat /\ 0 <= snd (Cv2.coord s d i) <= 1.
Proof.
  intro Hs. unfold Cv2.coord.
  set (f := (inject_Z (Z.of_nat i) + 0.5)
            * (inject_Z (Z.of_nat s) / inject_Z (Z.of_nat d)) - 0.5).
  destruct (Qfloor f <? 0)%Z eqn:Eneg; cbn [fst snd].
  - split; [exact Hs | split; discriminate].
  - destruct (Z.of_nat s - 1 <=? Qfloor f)%Z eqn:Ehi; cbn [fst snd].
    + split; [lia | split; discriminate].
    + apply Z.ltb_ge in Eneg. apply Z.leb_gt in Ehi.
      split; [lia|].
      pose proof (Qfloor_le f) as Hlo.
      pose proof (Qlt_floor f) as Hup.
      rewrite inject_Z_plus in Hup. change (inject_Z 1) with 1 in Hup.
      split; lra.
Qed.

Lemma lerp_between (lo hi f : Q) (a b : np_float) :
  0 <= f <= 1 -> fin_between lo hi a -> fin_between lo hi b ->
  fin_between lo hi (Cv2.lerp f a b).
Proof.
  intros [Hf0 Hf1] (qa & -> & Ha0 & Ha1) (qb & -> & Hb0 & Hb1).
  exists ((1 - f) * qa + f * qb). split; [reflexivity|].
  assert (H1 : 0 <= (1 - f) * (qa - lo)) by (apply Qmult_le_0_compat; lra).
  assert (H2 : 0 <= f * (qb - lo)) by (apply Qmult_le_0_compat; lra).
  assert (H3 : 0 <= (1 - f) * (hi - qa)) by (apply Qmult_le_0_compat; lra).
  assert (H4 : 0 <= f * (hi - qb)) by (apply Qmult_le_0_compat; lra).
  split; lra.
Qed.

Lemma extents_nth {A} (h w : nat) (t : tensor2 A) (y : nat) :
  extents t = repeat w h -> (y < h)%nat ->
  In (nth y t []) t /\ List.length (nth y t []) = w.
Proof.
  intros He Hy.
  assert (Hlen : List.length t = h).
  { apply (f_equal (@List.length nat)) in He.
    unfold extents in He. now rewrite length_map, repeat_length in He. }
  split; [apply nth_In; lia|].
  assert (Hn : nth y (extents t) 0%nat = w)
    by (rewrite He; now apply nth_repeat_lt).
  unfold extents in Hn.
  rewrite (nth_map_in _ _ []) in Hn by lia. exact Hn.
Qed.

Lemma at2_between (h w : nat) (src : tensor2 np_float) (lo hi : Q) (y x : nat) :
  extents src = repeat w h -> all2 (fin_between lo hi) src ->
  (y < h)%nat -> (x < w)%nat -> fin_between lo hi (Cv2.sample src y x).
Proof.
  intros He Hall Hy Hx.
  destruct (extents_nth h w src y He Hy) as [Hin Hlen].
  apply (Hall _ Hin). unfold Cv2.sample. apply nth_In. lia.
Qed.

Lemma resize_linear_range (src : tensor2 np_float) (dsize : nat * nat)
  (h w : nat) (lo hi : Q) :
  extents src = repeat w h -> (0 < h)%nat -> (0 < w)%nat ->
  all2 (fin_between lo hi) src ->
  all2 (fin_between lo hi) (Cv2.resize_linear src dsize).
Proof.
  intros He Hh Hw Hall row Hrow v Hv.
  assert (Hlen : List.length src = h).
  { apply (f_equal (@List.length nat)) in He.
    unfold extents in He. now rewrite length_map, repeat_length in He. }
  assert (Hwid : List.length (hd [] src) = w).
  { destruct src as [|r src]; [cbn in Hlen; lia|].
    destruct (extents_nth h w (r :: src) 0 He Hh) as [_ H]. exact H. }
  unfold Cv2.resize_linear in Hrow. rewrite Hlen, Hwid in Hrow.
  apply in_map_iff in Hrow. destruct Hrow as (dy & <- & _).
  pose proof (coord_in_range h (snd dsize) dy Hh) as [Hsy Hfy].
  destruct (Cv2.coord h (snd dsize) dy) as [sy fy]. cbn [fst snd] in *.
  apply in_map_iff in Hv. destruct Hv as (dx & <- & _).
  pose proof (coord_in_range w (fst dsize) dx Hw) as [Hsx Hfx].
  destruct (Cv2.coord w (fst dsize) dx) as [sx fx]. cbn [fst snd] in *.
  repeat apply lerp_between; try assumption;
    apply (at2_between h w); auto; lia.
Qed.

Lemma gradcam_heatmap_positive_witness :
  exists heatmap,
    GradCam.normalized_heatmap [[[1]]] [[[1]]] = Returns heatmap /\
    extents heatmap = [1%nat] /\
    all2 (fin_between 0 1) heatmap /\
    fst (run (GradCam.get_gradcam_heatmap Demo.fs Cv2.resize_linear
                Demo.positive_model "face.jpg" (2, 2)%nat
                "block14_sepconv2_act")) =
      Returns (GradCam.to_uint8 Cv2.resize_linear heatmap (2, 2)%nat,
               Demo.img (2, 2)%nat) /\
    all2 is_uint8 (GradCam.to_uint8 Cv2.resize_linear heatmap (2, 2)%nat).
Proof.
  destruct (gradcam_heatmap_positive Cv2.resize_linear
              resize_linear_extents resize_linear_range
              Demo.fs Demo.positive_model "face.jpg" "block14_sepconv2_act"
              (2, 2)%nat (Demo.img (2, 2)%nat) Demo.conv_layer 1 1 1)
    as (heatmap & Hn & He & Hr & _ & Hrun & _ & Hu).
  - reflexivity.
  - reflexivity.
  - reflexivity.
  - reflexivity.
  - lia.
  - lia.
  - lia.
  - exists [1 * (1 / 1) / 1], (1 * (1 / 1) / 1).
    split; [now left|]. split; [now left | reflexivity].
  - exists heatmap. repeat split; assumption.
Defined.

(** C4 as stated fails twice.  For the negative decision of the demo model
    the one raw contribution is -1 and the map after the division is NaN,
    not zero.  For the positive decision the function returns an array of
    the image's size (2 x 2, the feature map being 1 x 1) whose entries
    are 255, not values of [0, 1]. *)
Lemma returned_heatmap_not_unit_native :
  let x := div255 (Demo.img (2, 2)%nat) in
  let conv_outputs := output Demo.conv_layer x in
  let grads :=
    Target.tape_gradient (Target.loss (predict Demo.negative_model x))
      (d_prediction Demo.conv_layer x) in
  (at2 (GradCam.raw_heatmap conv_outputs grads) 0 0 == -1 /\
   GradCam.normalized_heatmap conv_outputs grads = Returns [[NaN]] /\
   ~ all2 (fin_between 0 0) [[NaN]]) /\
  (fst (run (GradCam.get_gradcam_heatmap Demo.fs Cv2.resize_linear
               Demo.positive_model "face.jpg" (2, 2)%nat
               "block14_sepconv2_act")) =
     Returns ([[Some 255%Z; Some 255%Z]; [Some 255%Z; Some 255%Z]],
              Demo.img (2, 2)%nat) /\
   extents conv_outputs = [1%nat] /\
   extents [[Some 255%Z; Some 255%Z]; [Some 255%Z; Some 255%Z]]
     <> extents conv_outputs /\
   ~ inject_Z 255 <= 1).
Proof.
  cbv zeta. split; [split; [|split] | split; [|split; [|split]]].
  - vm_compute. reflexivity.
  - vm_compute. reflexivity.
  - intro H. destruct (H [NaN] (or_introl eq_refl) NaN (or_introl eq_refl))
      as (q & Hq & _). discriminate.
  - vm_compute. reflexivity.
  - reflexivity.
  - discriminate.
  - intro H. vm_compute in H. now apply H.
Qed.

(* ===================================================================== *)
(** * Overlay blending *)
(* ===================================================================== *)

Lemma trunc_comp (q q' : Q) : q == q' -> trunc q = trunc q'.
Proof.
  intro H. unfold trunc. rewrite (Qleb_comp 0 0 (Qeq_refl 0) q q' H).
  now rewrite (Qfloor_comp q q' H), (Qceiling_comp q q' H).
Qed.

Lemma uint8_of_Q_comp (q q' : Q) : q == q' -> uint8_of_Q q = uint8_of_Q q'.
Proof. intro H. unfold uint8_of_Q. now rewrite (trunc_comp q q' H). Qed.

Lemma clip_between (x lo hi : Q) : lo <= hi -> lo <= clip x lo hi <= hi.
Proof.
  intro H. unfold clip. split.
  - apply Q.min_glb; [apply Q.le_max_r | exact H].
  - apply Q.le_min_r.
Qed.

Lemma clip_inside (x lo hi : Q) : lo <= x <= hi -> clip x lo hi == x.
Proof.
  intros [H0 H1]. unfold clip.
  rewrite (Q.max_l x lo H0). now apply Q.min_l.
Qed.

#[export] Instance clip_comp : Proper (Qeq ==> Qeq ==> Qeq ==> Qeq) clip.
Proof.
  intros x x' Hx lo lo' Hlo hi hi' Hhi. unfold clip. now rewrite Hx, Hlo, Hhi.
Qed.

Lemma blend_raw (o : Q) (hc : Z) :
  (1 - Overlay.alpha) * o + Overlay.alpha * (inject_Z hc / 255) * 255
  == 0.6 * o + 0.4 * inject_Z hc.
Proof. unfold Overlay.alpha. field. Qed.

Lemma blend_formula (o : Q) (hc : Z) :
  Overlay.blend o hc =
    Some (Qfloor (clip (0.6 * o + 0.4 * inject_Z hc) 0 255)) /\
  (0 <= Qfloor (clip (0.6 * o + 0.4 * inject_Z hc) 0 255) <= 255)%Z.
Proof.
  unfold Overlay.blend.
  rewrite (uint8_of_Q_comp _ (clip (0.6 * o + 0.4 * inject_Z hc) 0 255))
    by (apply clip_comp; [apply blend_raw | reflexivity | reflexivity]).
  apply uint8_of_Q_in_range. apply clip_between. discriminate.
Qed.

Lemma nth_map_combine {A B C} (f : A * B -> C) (a : list A) (b : list B)
  (da : A) (db : B) (dc : C) (i : nat) :
  List.length a = List.length b -> (i < List.length a)%nat ->
  nth i (map f (combine a b)) dc = f (nth i a da, nth i b db).
Proof.
  intros Hl Hi.
  rewrite (nth_map_in f _ (da, db)) by (rewrite length_combine; lia).
  now rewrite combine_nth.
Qed.

Lemma overlay_nth3 (h w c : nat) (original_img : tensor3)
  (heatmap_rgb : list (list (list Z))) (i j k : nat) :
  has_shape3 h w c original_img = true ->
  has_shape3 h w c heatmap_rgb = true ->
  (i < h)%nat -> (j < w)%nat -> (k < c)%nat ->
  nth3 None (Overlay.overlay original_img heatmap_rgb) i j k =
  Overlay.blend (at3 original_img i j k) (nth3 0%Z heatmap_rgb i j k).
Proof.
  intros Ho Hm Hi Hj Hk.
  pose proof (has_shape3_length _ _ _ _ Ho) as Lo.
  pose proof (has_shape3_length _ _ _ _ Hm) as Lm.
  destruct (has_shape3_nth _ _ _ _ i j Ho Hi Hj) as [Ro Po].
  destruct (has_shape3_nth _ _ _ _ i j Hm Hi Hj) as [Rm Pm].
  unfold nth3, at3, Overlay.overlay.
  rewrite (nth_map_combine _ _ _ [] []) by lia. cbn [fst snd].
  rewrite (nth_map_combine _ _ _ [] []) by lia. cbn [fst snd].
  rewrite (nth_map_combine _ _ _ 0 0%Z) by lia. reflexivity.
Qed.

(** C7.  For an original image and a colour-mapped heatmap of one shape,
    every entry of the overlay is [clip(0.6*original + 0.4*heatmapColor,
    0, 255)] cast to an 8-bit integer (the cast truncates, and is always
    defined here).  In particular where the heatmap colour is zero and the
    original is a pixel value the entry is 0.6*original so quantised,
    within one unit below it; and with the palette colour [pc =
    heatmapColor / 255] the entry is [0.6*original + 0.4*255*pc] clipped
    and quantised, for the colour at the maximum as for any other. *)
Theorem overlay_is_clipped_blend (h w c : nat) (original_img : tensor3)
  (heatmap_rgb : list (list (list Z))) (i j k : nat) :
  has_shape3 h w c original_img = true ->
  has_shape3 h w c heatmap_rgb = true ->
  (i < h)%nat -> (j < w)%nat -> (k < c)%nat ->
  let o := at3 original_img i j k in
  let hc := nth3 0%Z heatmap_rgb i j k in
  let out := nth3 None (Overlay.overlay original_img heatmap_rgb) i j k in
  (exists z, out = Some z /\ (0 <= z <= 255)%Z /\
             z = Qfloor (clip (0.6 * o + 0.4 * inject_Z hc) 0 255)) /\
  (hc = 0%Z -> 0 <= o <= 255 ->
     exists z, out = Some z /\ z = Qfloor (0.6 * o) /\
               0.6 * o - 1 < inject_Z z <= 0.6 * o) /\
  out = Some (Qfloor (clip (0.6 * o + 0.4 * 255 * (inject_Z hc / 255)) 0 255)).
Proof.
  intros Ho Hm Hi Hj Hk o hc out.
  assert (E : out = Overlay.blend o hc)
    by (apply (overlay_nth3 h w c); assumption).
  destruct (blend_formula o hc) as [F R].
  split; [|split].
  - exists (Qfloor (clip (0.6 * o + 0.4 * inject_Z hc) 0 255)).
    split; [congruence | split; [exact R | reflexivity]].
  - intros H0 Ho255. exists (Qfloor (0.6 * o)).
    assert (Q0 : clip (0.6 * o + 0.4 * inject_Z hc) 0 255 == 0.6 * o).
    { rewrite H0. change (inject_Z 0) with 0.
      rewrite clip_inside; lra. }
    split; [rewrite E, F; f_equal; now apply Qfloor_comp|].
    split; [reflexivity|].
    pose proof (Qfloor_le (0.6 * o)) as Hlo.
    pose proof (Qlt_floor (0.6 * o)) as Hup.
    rewrite inject_Z_plus in Hup. change (inject_Z 1) with 1 in Hup.
    split; lra.
  - rewrite E, F. f_equal. apply Qfloor_comp. apply clip_comp; try reflexivity.
    field.
Qed.

Lemma overlay_is_clipped_blend_witness :
  let original_img := [[[100; 1; 255]]] in
  let heatmap_rgb := [[[128; 0; 255]]]%Z in
  Overlay.overlay original_img heatmap_rgb =
    [[[Some 111; Some 0; Some 255]]]%Z /\
  nth3 None (Overlay.overlay original_img heatmap_rgb) 0 0 1 =
    Some (Qfloor (clip (0.6 * 1 + 0.4 * 255 * (inject_Z 0 / 255)) 0 255)).
Proof.
  intros original_img heatmap_rgb. split; [reflexivity|].
  destruct (overlay_is_clipped_blend 1 1 3 original_img heatmap_rgb 0 0 1
              eq_refl eq_refl) as (_ & _ & H); [lia | lia | lia |].
  exact H.
Defined.

(* ===================================================================== *)
(** * Substrings and [get_true_label] *)
(* ===================================================================== *)

Section Substrings.

Local Open Scope string_scope.

Lemma string_app_assoc (a b c : string) : (a ++ b) ++ c = a ++ (b ++ c).
Proof. induction a as [|x a IH]; cbn; [reflexivity | now rewrite IH]. Qed.

Lemma prefix_iff (pat s : string) :
  String.prefix pat s = true <-> exists post, s = pat ++ post.
Proof.
  revert s. induction pat as [|x pat IH]; intro s.
  - split; [intros _; now exists s|]. intros _. now destruct s.
  - destruct s as [|y s]; cbn.
    + split; [discriminate | intros [post H]; discriminate].
    + destruct (ascii_dec x y) as [->|Hxy].
      * rewrite IH. split; intros [post H]; exists post.
        -- now rewrite H.
        -- now injection H.
      * split; [discriminate|]. intros [post H]. injection H as H _.
        congruence.
Qed.

Lemma contains_iff (pat s : string) :
  Paths.contains pat s = true <-> exists pre post, s = pre ++ pat ++ post.
Proof.
  induction s as [|y s IH]; cbn [Paths.contains]; rewrite orb_true_iff.
  - split.
    + intros [H | H]; [|discriminate].
      apply prefix_iff in H. destruct H as [post H]. now exists "", post.
    + intros (pre & post & H). left. apply prefix_iff.
      destruct pre; [now exists post | discriminate].
  - rewrite IH, prefix_iff. split.
    + intros [[post H] | (pre & post & H)].
      * now exists "", post.
      * exists (String y pre), post. cbn. now rewrite H.
    + intros (pre & post & H). destruct pre as [|x pre].
      * left. now exists post.
      * right. cbn in H. injection H as _ H. now exists pre, post.
Qed.

(** A string that contains [a ++ b] contains [b]. *)
Lemma contains_tail (a b s : string) :
  Paths.contains (a ++ b) s = true -> Paths.contains b s = true.
Proof.
  rewrite !contains_iff. intros (pre & post & H).
  exists (pre ++ a), post. now rewrite H, !string_app_assoc.
Qed.

Lemma plural_inside_non_plural (p : string) :
  Paths.contains "Non_Autistics" p = true ->
  Paths.contains "Autistics" p = true.
Proof. apply (contains_tail "Non_" "Autistics"). Qed.

Lemma get_true_label_without_plural (p : string) :
  Paths.contains "Autistics" p = false -> Paths.get_true_label p = None.
Proof.
  intro H. unfold Paths.get_true_label. rewrite H.
  destruct (Paths.contains "Non_Autistics" p) eqn:E; [|reflexivity].
  apply plural_inside_non_plural in E. congruence.
Qed.

(** The two directories of the listing add no occurrence of the plural
    name in front of a file name. *)
Lemma joined_autistic (fname : string) :
  Paths.contains "Autistics" (Paths.os_path_join Paths.autistic_dir fname) =
  Paths.contains "Autistics" fname.
Proof.
  unfold Paths.os_path_join.
  destruct (String.prefix "/" fname); reflexivity.
Qed.

Lemma joined_non_autistic (fname : string) :
  Paths.contains "Autistics" (Paths.os_path_join Paths.non_autistic_dir fname) =
  Paths.contains "Autistics" fname.
Proof.
  unfold Paths.os_path_join.
  destruct (String.prefix "/" fname); reflexivity.
Qed.

Lemma listed_images_inv (dir : string) (listdir : list string) (p : string) :
  In p (Paths.listed_images dir listdir) ->
  exists fname, In fname listdir /\ Paths.is_image fname = true /\
                p = Paths.os_path_join dir fname.
Proof.
  unfold Paths.listed_images. intro H.
  apply in_map_iff in H. destruct H as (fname & <- & Hf).
  apply filter_In in Hf. destruct Hf as [Hin Himg].
  exists fname. repeat split; auto.
  assert (H1 : In fname (skipn 45 listdir)).
  { rewrite <- (firstn_skipn 7 (skipn 45 listdir)). apply in_or_app. now left. }
  rewrite <- (firstn_skipn 45 listdir). apply in_or_app. now right.
Qed.

End Substrings.

(** C6 (as amended).  A path that contains 'Non_Autistics' is labelled
    'Autistic', the first test being on 'Autistics', which occurs inside
    it; no path at all is labelled 'Non_Autistic'; and a path the listing
    cell builds from the singular folders 'Autistic' and 'Non_Autistic' is
    labelled by its file name alone: [None] when the file name does not
    contain 'Autistics', 'Autistic' when it does. *)
Theorem get_true_label_plural_names :
  (forall p, Paths.contains "Non_Autistics" p = true ->
             Paths.get_true_label p = Some "Autistic"%string) /\
  (forall p, Paths.get_true_label p <> Some "Non_Autistic"%string) /\
  (forall listdir_autistic listdir_non_autistic p,
     (forall fname, In fname (listdir_autistic ++ listdir_non_autistic) ->
                    Paths.contains "Autistics" fname = false) ->
     In p (Paths.test_images listdir_autistic listdir_non_autistic) ->
     Paths.get_true_label p = None) /\
  (forall listdir_autistic listdir_non_autistic p,
     In p (Paths.test_images listdir_autistic listdir_non_autistic) ->
     exists dir fname,
       In fname (listdir_autistic ++ listdir_non_autistic) /\
       p = Paths.os_path_join dir fname /\
       Paths.get_true_label p =
         (if Paths.contains "Autistics" fname
          then Some "Autistic"%string else None)).
Proof.
  split; [|split; [|split]]; cycle 3.
  { intros la ln p Hp. unfold Paths.test_images in Hp.
    apply in_app_or in Hp.
    destruct Hp as [Hp | Hp]; apply listed_images_inv in Hp;
      destruct Hp as (fname & Hin & _ & ->).
    - exists Paths.autistic_dir, fname.
      split; [apply in_or_app; now left|]. split; [reflexivity|].
      destruct (Paths.contains "Autistics" fname) eqn:E.
      + unfold Paths.get_true_label. now rewrite joined_autistic, E.
      + apply get_true_label_without_plural. now rewrite joined_autistic.
    - exists Paths.non_autistic_dir, fname.
      split; [apply in_or_app; now right|]. split; [reflexivity|].
      destruct (Paths.contains "Autistics" fname) eqn:E.
      + unfold Paths.get_true_label. now rewrite joined_non_autistic, E.
      + apply get_true_label_without_plural.
        now rewrite joined_non_autistic. }
  - intros p H. unfold Paths.get_true_label.
    now rewrite (plural_inside_non_plural p H).
  - intros p. unfold Paths.get_true_label.
    destruct (Paths.contains "Autistics" p) eqn:E; [discriminate|].
    destruct (Paths.contains "Non_Autistics" p) eqn:E'; [|discriminate].
    apply plural_inside_non_plural in E'. congruence.
  - intros la ln p Hnames Hp. unfold Paths.test_images in Hp.
    apply get_true_label_without_plural.
    apply in_app_or in Hp.
    destruct Hp as [Hp | Hp]; apply listed_images_inv in Hp;
      destruct Hp as (fname & Hin & _ & ->).
    + rewrite joined_autistic. apply Hnames. apply in_or_app. now left.
    + rewrite joined_non_autistic. apply Hnames. apply in_or_app. now right.
Qed.

Lemma get_true_label_plural_names_witness :
  Paths.get_true_label "data/test/Non_Autistics/Non_Autistic.7.jpg" =
    Some "Autistic"%string /\
  Paths.get_true_label "data/test/Non_Autistic/Non_Autistic.7.jpg" = None.
Proof.
  destruct get_true_label_plural_names as (Hplural & _ & Hlisted & _).
  split.
  - apply Hplural. reflexivity.
  - apply (Hlisted []
             (repeat "x.png"%string 45 ++ ["Non_Autistic.7.jpg"%string])).
    + intros fname Hin. cbn [app] in Hin. apply in_app_or in Hin.
      destruct Hin as [Hin | [<- | []]]; [|reflexivity].
      apply repeat_spec in Hin. now subst fname.
    + vm_compute. now left.
Defined.

(** C6 as stated fails in its second half: a file of the folder 'Autistic'
    whose own name contains 'Autistics' is listed under the singular
    folder name and is labelled 'Autistic', not [None]. *)
Lemma listed_plural_file_name_is_labelled :
  let listdir := repeat "x.png"%string 45 ++ ["myAutistics.jpg"%string] in
  In "data/test/Autistic/myAutistics.jpg"%string
     (Paths.test_images listdir []) /\
  Paths.get_true_label "data/test/Autistic/myAutistics.jpg" =
    Some "Autistic"%string /\
  Paths.get_true_label "data/test/Autistic/myAutistics.jpg" <> None.
Proof.
  cbv zeta. split; [vm_compute; now left|].
  split; [reflexivity | discriminate].
Qed.

(* ===================================================================== *)
(** * Failures: unknown layer, empty list, unreadable image *)
(* ===================================================================== *)

Lemma find_layer_none (ls : list (string * layer)) (name : string) :
  find_layer ls name = None <-> ~ In name (map fst ls).
Proof.
  induction ls as [|[n l] ls IH]; cbn.
  - tauto.
  - destruct (String.eqb_spec n name) as [-> | Hne].
    + split; [discriminate | intro H; exfalso; apply H; now left].
    + rewrite IH. tauto.
Qed.

(** C8 (as amended).  The notebook has no construction step for the
    explanation path and no error of its own: with a name that no layer of
    the model bears, each call of [get_gradcam_heatmap] first reads and
    prepares its image and then stops in [get_layer] with Keras's
    ValueError; when the image cannot be read the call stops before the
    lookup, with the loader's error. *)
Theorem missing_layer_fails_inside_each_call
  (fs : storage) (resize : GradCam.resizer) (model : keras_model)
  (img_path : string) (img_size : nat * nat) (name : string) :
  ~ In name (map fst (layers model)) ->
  run (GradCam.get_gradcam_heatmap fs resize model img_path img_size name) =
  match fs img_path img_size with
  | Some _ => (Raises ValueError, [LoadImg img_path img_size; GetLayer name])
  | None => (Raises OSError, [LoadImg img_path img_size])
  end.
Proof.
  intro H. apply find_layer_none in H.
  unfold run, GradCam.get_gradcam_heatmap, load_img, get_layer, bind, emit,
    raise, ret.
  destruct (fs img_path img_size); [|reflexivity].
  now rewrite H.
Qed.

Lemma missing_layer_fails_inside_each_call_witness :
  run (GradCam.get_gradcam_heatmap Demo.fs Cv2.resize_linear
         Demo.positive_model "face.jpg" IMG_SIZE "nonexistent_layer") =
  (Raises ValueError,
   [LoadImg "face.jpg" IMG_SIZE; GetLayer "nonexistent_layer"]).
Proof.
  apply (missing_layer_fails_inside_each_call Demo.fs Cv2.resize_linear
           Demo.positive_model "face.jpg" IMG_SIZE "nonexistent_layer").
  simpl. intros [H | []]. discriminate.
Defined.

(** C8 as stated fails: the failure is a ValueError, and when it occurs the
    image of that call has already been read. *)
Lemma missing_layer_is_found_after_image_load :
  exists log,
    run (GradCam.get_gradcam_heatmap Demo.fs Cv2.resize_linear
           Demo.positive_model "face.jpg" IMG_SIZE "nonexistent_layer") =
    (Raises ValueError, log) /\
    existsb per_image_work log = true.
Proof.
  exists [LoadImg "face.jpg" IMG_SIZE; GetLayer "nonexistent_layer"].
  split; reflexivity.
Qed.

Lemma loop_stops_at_unreadable (fs : storage) (model : keras_model)
  (before : list string) (bad : string) (rest : list string) :
  Forall (fun p => fs p IMG_SIZE <> None) before ->
  fs bad IMG_SIZE = None ->
  forall correct log,
    Evaluation.loop fs model (before ++ bad :: rest) correct log =
    (Raises OSError,
     log ++ flat_map (Evaluation.item_events fs model) before
         ++ [LoadImg bad IMG_SIZE]).
Proof.
  intros Hbefore Hbad. induction Hbefore as [|p before Hp _ IH];
    intros correct log.
  - cbn [app flat_map Evaluation.loop]. unfold bind at 1.
    now rewrite (predict_asd_unreadable fs model bad log Hbad).
  - destruct (fs p IMG_SIZE) as [img|] eqn:E; [|congruence].
    cbn [app flat_map Evaluation.loop]. unfold bind at 1.
    rewrite (predict_asd_loaded fs model p img log E).
    unfold bind, emit. cbn [fst snd]. rewrite IH.
    unfold Evaluation.item_events. rewrite E.
    f_equal. repeat rewrite <- app_assoc. reflexivity.
Qed.

Lemma loop_all_readable (fs : storage) (model : keras_model)
  (test_images : list string) :
  Forall (fun p => fs p IMG_SIZE <> None) test_images ->
  forall correct log,
    Evaluation.loop fs model test_images correct log =
    (Returns (correct + Evaluation.correct_count fs model test_images)%nat,
     log ++ flat_map (Evaluation.item_events fs model) test_images).
Proof.
  intros Hall. induction Hall as [|p l Hp _ IH]; intros correct log.
  - cbn. now rewrite Nat.add_0_r, app_nil_r.
  - destruct (fs p IMG_SIZE) as [img|] eqn:E; [|congruence].
    set (ok := Evaluation.label_eq (Paths.get_true_label p)
                 (Inference.label (predict model (div255 img)))).
    assert (Hc : Evaluation.correct_count fs model (p :: l) =
                 ((if ok then 1 else 0)
                  + Evaluation.correct_count fs model l)%nat).
    { unfold Evaluation.correct_count. cbn [filter].
      unfold Evaluation.is_correct at 1. rewrite E. fold ok.
      now destruct ok. }
    rewrite Hc. cbn [flat_map Evaluation.loop].
    unfold Evaluation.item_events at 1. rewrite E.
    unfold bind at 1. rewrite (predict_asd_loaded fs model p img log E).
    unfold bind, emit. cbn [fst snd]. rewrite IH. fold ok.
    f_equal.
    + f_equal. destruct ok; lia.
    + repeat rewrite <- app_assoc. reflexivity.
Qed.

(** Either every image of a list can be read, or there is a first one that
    cannot. *)
Lemma first_unreadable (fs : storage) (test_images : list string) :
  Forall (fun p => fs p IMG_SIZE <> None) test_images \/
  exists before bad rest,
    test_images = before ++ bad :: rest /\
    Forall (fun p => fs p IMG_SIZE <> None) before /\
    fs bad IMG_SIZE = None.
Proof.
  induction test_images as [|p l IH].
  - left. constructor.
  - destruct (fs p IMG_SIZE) as [img|] eqn:E.
    + destruct IH as [IH | (before & bad & rest & -> & Hb & Hbad)].
      * left. constructor; [congruence | exact IH].
      * right. exists (p :: before), bad, rest.
        repeat split; auto. constructor; [congruence | exact Hb].
    + right. exists [], p, l. repeat split; auto.
Qed.

(** The cell on a list whose images can all be read: when the list is not
    empty it reports and returns the percentage of correct items. *)
Lemma evaluate_all_readable (fs : storage) (model : keras_model)
  (test_images : list string) :
  test_images <> [] ->
  Forall (fun p => fs p IMG_SIZE <> None) test_images ->
  let correct := Evaluation.correct_count fs model test_images in
  let total := List.length test_images in
  let accuracy :=
    inject_Z (Z.of_nat correct) / inject_Z (Z.of_nat total) * 100 in
  run (Evaluation.evaluate fs model test_images) =
  (Returns accuracy,
   PrintLine Header :: flat_map (Evaluation.item_events fs model) test_images
     ++ [PrintLine (AccuracyLine accuracy);
         PrintLine (CountLine correct total)]).
Proof.
  intros Hne Hall correct total accuracy.
  unfold run, Evaluation.evaluate, bind, emit.
  rewrite (loop_all_readable fs model test_images Hall). cbn [Nat.add].
  unfold Evaluation.truediv.
  destruct test_images as [|p l]; [congruence|].
  cbn [List.length Nat.eqb]. unfold ret.
  f_equal. cbn [app]. f_equal. now rewrite <- !app_assoc.
Qed.

(** C9 (as amended).  On an empty [test_images] the cell prints its header,
    runs no iteration and stops at [correct_predictions / total_images]
    with ZeroDivisionError, no accuracy line being printed; and the empty
    list is the only input on which the cell ends with that error. *)
Theorem empty_test_images_zero_division (fs : storage) (model : keras_model)
  (test_images : list string) :
  run (Evaluation.evaluate fs model []) =
    (Raises ZeroDivisionError, [PrintLine Header]) /\
  (fst (run (Evaluation.evaluate fs model test_images)) =
     Raises ZeroDivisionError <-> test_images = []).
Proof.
  split; [reflexivity|]. split; [|now intros ->].
  intro H. destruct test_images as [|p l]; [reflexivity|]. exfalso.
  destruct (first_unreadable fs (p :: l))
    as [Hall | (before & bad & rest & E & Hb & Hbad)].
  - rewrite (evaluate_all_readable fs model (p :: l)) in H;
      [discriminate | discriminate | exact Hall].
  - rewrite E in H.
    unfold run, Evaluation.evaluate, bind, emit in H.
    rewrite (loop_stops_at_unreadable fs model before bad rest Hb Hbad) in H.
    discriminate.
Qed.

Lemma empty_test_images_zero_division_witness :
  run (Evaluation.evaluate Demo.fs Demo.positive_model []) =
    (Raises ZeroDivisionError, [PrintLine Header]) /\
  fst (run (Evaluation.evaluate Demo.fs Demo.positive_model
              ["face.jpg"%string])) <> Raises ZeroDivisionError.
Proof.
  destruct (empty_test_images_zero_division Demo.fs Demo.positive_model
              ["face.jpg"%string]) as [Hempty [Honly _]].
  split; [exact Hempty|].
  intro H. apply Honly in H. discriminate.
Defined.

(** C9 as stated fails: on the empty list the cell ends with the division
    fault. *)
Lemma empty_test_images_division_fault :
  fst (run (Evaluation.evaluate Demo.fs Demo.positive_model [])) =
  Raises ZeroDivisionError.
Proof. reflexivity. Qed.

(** C10 (as amended).  The loop has no handler: when an image of the list
    cannot be read, the items before it have been evaluated and reported,
    the run then stops with the loader's error, and neither the items
    after it nor the accuracy are evaluated. *)
Theorem unreadable_image_aborts_run (fs : storage) (model : keras_model)
  (before : list string) (bad : string) (rest : list string) :
  Forall (fun p => fs p IMG_SIZE <> None) before ->
  fs bad IMG_SIZE = None ->
  run (Evaluation.evaluate fs model (before ++ bad :: rest)) =
  (Raises OSError,
   PrintLine Header :: flat_map (Evaluation.item_events fs model) before
     ++ [LoadImg bad IMG_SIZE]).
Proof.
  intros Hbefore Hbad.
  unfold run, Evaluation.evaluate, bind, emit.
  now rewrite (loop_stops_at_unreadable fs model before bad rest Hbefore Hbad).
Qed.

Lemma unreadable_image_aborts_run_witness :
  run (Evaluation.evaluate Demo.fs Demo.positive_model
         (["face.jpg"] ++ "missing.jpg" :: ["face.jpg"]))%string =
  (Raises OSError,
   PrintLine Header
   :: flat_map (Evaluation.item_events Demo.fs Demo.positive_model)
        ["face.jpg"%string]
   ++ [LoadImg "missing.jpg" IMG_SIZE]).
Proof.
  apply (unreadable_image_aborts_run Demo.fs Demo.positive_model
           ["face.jpg"%string] "missing.jpg" ["face.jpg"%string]).
  - constructor; [discriminate | constructor].
  - reflexivity.
Defined.

(** C10 as stated fails: with an unreadable first image the run ends with
    the error, and the readable second image is never loaded. *)
Lemma unreadable_image_is_not_skipped :
  exists log,
    run (Evaluation.evaluate Demo.fs Demo.positive_model
           ["missing.jpg"; "face.jpg"])%string = (Raises OSError, log) /\
    ~ In (LoadImg "face.jpg" IMG_SIZE) log /\
    Demo.fs "face.jpg"%string IMG_SIZE = Some (Demo.img IMG_SIZE).
Proof.
  exists [PrintLine Header; LoadImg "missing.jpg" IMG_SIZE].
  split; [reflexivity|]. split; [|reflexivity].
  intros [H | [H | []]]; discriminate.
Qed.

(* ===================================================================== *)
(** * The evaluation cell on lists it can read *)
(* ===================================================================== *)

Lemma correct_count_le (fs : storage) (model : keras_model)
  (test_images : list string) :
  (Evaluation.correct_count fs model test_images
   <= List.length test_images)%nat.
Proof. unfold Evaluation.correct_count. apply filter_length_le. Qed.

Lemma percentage_bounds (c t : nat) :
  (0 < t)%nat -> (c <= t)%nat ->
  0 <= inject_Z (Z.of_nat c) / inject_Z (Z.of_nat t) * 100 <= 100.
Proof.
  intros Ht Hc.
  assert (Ht' : 0 < inject_Z (Z.of_nat t)).
  { change 0 with (inject_Z 0). rewrite <- Zlt_Qlt. lia. }
  assert (Hc0 : 0 <= inject_Z (Z.of_nat c)).
  { change 0 with (inject_Z 0). rewrite <- Zle_Qle. lia. }
  assert (Hct : inject_Z (Z.of_nat c) <= inject_Z (Z.of_nat t)).
  { rewrite <- Zle_Qle. lia. }
  destruct (unit_quotient _ _ Hc0 Hct Ht') as [Q0 Q1].
  split; lra.
Qed.

(** X1.  On a list that is not empty and whose images can all be read, the
    evaluation cell raises nothing: it returns 100 * correct / total, a
    value between 0 and 100, where correct counts the items whose predicted
    label equals the label read from the path; it reads each image once, in
    order, and its last two lines are the accuracy and the counts. *)
Theorem evaluate_reports_accuracy (fs : storage) (model : keras_model)
  (test_images : list string) :
  test_images <> [] ->
  Forall (fun p => fs p IMG_SIZE <> None) test_images ->
  let correct := Evaluation.correct_count fs model test_images in
  let total := List.length test_images in
  exists accuracy log,
    run (Evaluation.evaluate fs model test_images) = (Returns accuracy, log) /\
    accuracy = inject_Z (Z.of_nat correct) / inject_Z (Z.of_nat total) * 100 /\
    0 <= accuracy <= 100 /\
    (correct <= total)%nat /\
    log = PrintLine Header
          :: flat_map (Evaluation.item_events fs model) test_images
          ++ [PrintLine (AccuracyLine accuracy);
              PrintLine (CountLine correct total)].
Proof.
  intros Hne Hall correct total.
  pose proof (correct_count_le fs model test_images) as Hle.
  eexists. eexists. split.
  - apply (evaluate_all_readable fs model test_images Hne Hall).
  - split; [reflexivity|]. split; [|split; [exact Hle | reflexivity]].
    apply percentage_bounds; [|exact Hle].
    destruct test_images; [congruence | cbn; lia].
Qed.

Lemma evaluate_reports_accuracy_witness :
  exists accuracy log,
    run (Evaluation.evaluate Demo.fs Demo.positive_model
           ["face.jpg"; "face.jpg"]%string) = (Returns accuracy, log) /\
    0 <= accuracy <= 100.
Proof.
  destruct (evaluate_reports_accuracy Demo.fs Demo.positive_model
              ["face.jpg"; "face.jpg"]%string)
    as (accuracy & log & Hrun & _ & Hb & _).
  - discriminate.
  - repeat constructor; discriminate.
  - exists accuracy, log. now split.
Defined.

Lemma label_is_autistic (p : Q) :
  String.eqb "Autistic" (Inference.label p) = Num.gt p 0.5.
Proof. unfold Inference.label. now destruct (Num.gt p 0.5). Qed.

(** X2.  One iteration of the evaluation loop on an image that can be read
    raises the count of correct predictions exactly when the path contains
    'Autistics' and the model's probability is above 0.5; in every other
    case the count is unchanged.  So an image under a 'Non_Autistics'
    folder is counted as correct only when it is predicted 'Autistic'. *)
Theorem item_counted_correct_iff (fs : storage) (model : keras_model)
  (img_path : string) (img : tensor3) (correct : nat) (log : list event) :
  fs img_path IMG_SIZE = Some img ->
  let counted := fst (Evaluation.loop fs model [img_path] correct log) in
  (counted = Returns (S correct) \/ counted = Returns correct) /\
  (counted = Returns (S correct) <->
   Paths.contains "Autistics" img_path = true /\
   0.5 < predict model (div255 img)).
Proof.
  intros Hfs counted.
  assert (E : counted =
              Returns (if Evaluation.label_eq (Paths.get_true_label img_path)
                            (Inference.label (predict model (div255 img)))
                       then S correct else correct)).
  { unfold counted. cbn [Evaluation.loop]. unfold bind at 1.
    rewrite (predict_asd_loaded fs model img_path img log Hfs).
    unfold bind, emit, ret. cbn [fst snd]. reflexivity. }
  rewrite E. unfold Paths.get_true_label.
  destruct (Paths.contains "Autistics" img_path) eqn:Ec.
  - cbn [Evaluation.label_eq]. rewrite label_is_autistic.
    destruct (gt_spec (predict model (div255 img)) 0.5) as [Hgt | Hle].
    + split; [now left|]. split; [now split | reflexivity].
    + split; [now right|]. split.
      * intro H. injection H as H. lia.
      * intros [_ Hgt]. lra.
  - assert (En : Paths.contains "Non_Autistics" img_path = false).
    { destruct (Paths.contains "Non_Autistics" img_path) eqn:En; [|reflexivity].
      apply plural_inside_non_plural in En. congruence. }
    rewrite En. cbn [Evaluation.label_eq].
    split; [now right|]. split.
    + intro H. injection H as H. lia.
    + intros [H _]. discriminate.
Qed.

Lemma item_counted_correct_iff_witness :
  fst (Evaluation.loop (fun _ size => Some (Demo.img size)) Demo.negative_model
         ["data/test/Non_Autistics/a.jpg"%string] 0 []) <> Returns 1%nat.
Proof.
  destruct (item_counted_correct_iff (fun _ size => Some (Demo.img size))
              Demo.negative_model "data/test/Non_Autistics/a.jpg"
              (Demo.img IMG_SIZE) 0 [] eq_refl) as [_ [Hiff _]].
  intro H. apply Hiff in H. destruct H as [_ H]. cbn in H.
  revert H. apply Qle_not_lt. discriminate.
Defined.

(* ===================================================================== *)
(** * The listing cell and what the evaluation makes of its paths *)
(* ===================================================================== *)

Lemma window_inv {A} (l : list A) (x : A) :
  In x (firstn 7 (skipn 45 l)) ->
  exists i, (45 <= i < 52)%nat /\ nth_error l i = Some x.
Proof.
  intro H. apply In_nth_error in H. destruct H as [n Hn].
  rewrite nth_error_firstn in Hn.
  destruct (n <? 7)%nat eqn:E; [|discriminate].
  apply Nat.ltb_lt in E. rewrite nth_error_skipn in Hn.
  exists (45 + n)%nat. split; [lia | exact Hn].
Qed.

Lemma listed_images_length (dir : string) (listdir : list string) :
  (List.length (Paths.listed_images dir listdir) <= 7)%nat.
Proof.
  unfold Paths.listed_images. rewrite length_map.
  eapply Nat.le_trans; [apply filter_length_le | apply firstn_le_length].
Qed.

(** X3.  The listing of one folder keeps at most seven paths; each is the
    folder joined with a file name that stands at one of the positions 45
    to 51 of the directory listing and ends in .jpg, .jpeg or .png; a
    directory of at most 45 entries gives no path at all.  The combined
    list has at most fourteen paths. *)
Theorem listed_images_window (dir : string) (listdir : list string) :
  (List.length (Paths.listed_images dir listdir) <= 7)%nat /\
  (forall p, In p (Paths.listed_images dir listdir) ->
     exists i fname,
       (45 <= i < 52)%nat /\ nth_error listdir i = Some fname /\
       Paths.is_image fname = true /\ p = Paths.os_path_join dir fname) /\
  ((List.length listdir <= 45)%nat -> Paths.listed_images dir listdir = []) /\
  (forall other,
     (List.length (Paths.test_images listdir other) <= 14)%nat).
Proof.
  split; [apply listed_images_length|]. split; [|split].
  - intros p Hp. unfold Paths.listed_images in Hp.
    apply in_map_iff in Hp. destruct Hp as (fname & <- & Hf).
    apply filter_In in Hf. destruct Hf as [Hin Himg].
    apply window_inv in Hin. destruct Hin as (i & Hi & Hnth).
    now exists i, fname.
  - intro Hlen. unfold Paths.listed_images.
    now rewrite (skipn_all2 listdir Hlen).
  - intro other. unfold Paths.test_images. rewrite length_app.
    pose proof (listed_images_length Paths.autistic_dir listdir).
    pose proof (listed_images_length Paths.non_autistic_dir other).
    lia.
Qed.

Lemma listed_images_window_witness :
  Paths.listed_images "data/test/Autistic"
    (repeat "a.jpg"%string 45
     ++ ["b.jpg"%string; "notes.txt"%string; "c.png"%string]) =
  ["data/test/Autistic/b.jpg"; "data/test/Autistic/c.png"]%string /\
  Paths.listed_images "data/test/Autistic" (repeat "a.jpg"%string 45) = [].
Proof.
  split; [reflexivity|].
  destruct (listed_images_window "data/test/Autistic"
              (repeat "a.jpg"%string 45)) as (_ & _ & Hsmall & _).
  apply Hsmall. rewrite repeat_length. lia.
Defined.

(** X4.  When neither test folder has more than 45 entries the listing is
    empty and the evaluation cell, run on it, ends with ZeroDivisionError
    after printing its header only. *)
Theorem small_folders_end_in_zero_division (fs : storage) (model : keras_model)
  (listdir_autistic listdir_non_autistic : list string) :
  (List.length listdir_autistic <= 45)%nat ->
  (List.length listdir_non_autistic <= 45)%nat ->
  Paths.test_images listdir_autistic listdir_non_autistic = [] /\
  run (Evaluation.evaluate fs model
         (Paths.test_images listdir_autistic listdir_non_autistic)) =
  (Raises ZeroDivisionError, [PrintLine Header]).
Proof.
  intros Ha Hn.
  assert (E : Paths.test_images listdir_autistic listdir_non_autistic = []).
  { unfold Paths.test_images, Paths.listed_images.
    now rewrite (skipn_all2 listdir_autistic Ha),
                (skipn_all2 listdir_non_autistic Hn). }
  split; [exact E|]. rewrite E. reflexivity.
Qed.

Lemma small_folders_end_in_zero_division_witness :
  run (Evaluation.evaluate Demo.fs Demo.positive_model
         (Paths.test_images (repeat "a.jpg"%string 45)
                            (repeat "b.jpg"%string 10))) =
  (Raises ZeroDivisionError, [PrintLine Header]).
Proof.
  apply (small_folders_end_in_zero_division Demo.fs Demo.positive_model
           (repeat "a.jpg"%string 45) (repeat "b.jpg"%string 10)).
  - rewrite repeat_length. lia.
  - rewrite repeat_length. lia.
Defined.





(* ===================================================================== *)
(** * File names: joining and taking the base name *)
(* ===================================================================== *)

Section Basenames.

Local Open Scope string_scope.

Lemma basename_from_after_separator (a b acc : string) :
  Paths.basename_from acc (a ++ String "/" b) = Paths.basename_from "" b.
Proof.
  revert acc. induction a as [|c a IH]; intro acc; cbn.
  - reflexivity.
  - destruct (Ascii.eqb c "/"); apply IH.
Qed.

Lemma no_separator_cons (c : ascii) (s : string) :
  Paths.contains "/" (String c s) = false ->
  Ascii.eqb c "/" = false /\ Paths.contains "/" s = false.
Proof.
  cbn [Paths.contains]. rewrite orb_false_iff. intros [Hp Hs].
  split; [|exact Hs].
  destruct (Ascii.eqb_spec c "/") as [-> | Hne]; [|reflexivity].
  cbn in Hp. now destruct s.
Qed.

Lemma basename_from_plain (f acc : string) :
  Paths.contains "/" f = false -> Paths.basename_from acc f = acc ++ f.
Proof.
  revert acc. induction f as [|c f IH]; intros acc H; cbn.
  - induction acc as [|x acc IHa]; cbn; [reflexivity | now rewrite <- IHa].
  - apply no_separator_cons in H. destruct H as [Hc Hf].
    rewrite Hc, (IH _ Hf), string_app_assoc. reflexivity.
Qed.

Lemma substring_last (c : ascii) (s : string) :
  s <> "" ->
  substring (String.length (String c s) - 1) 1 (String c s) =
  substring (String.length s - 1) 1 s.
Proof.
  intro H. destruct s as [|d s]; [congruence|].
  cbn [String.length]. rewrite !Nat.sub_succ, !Nat.sub_0_r. reflexivity.
Qed.

Lemma endswith_separator (a : string) :
  Paths.endswith a "/" = true -> exists a', a = a' ++ "/".
Proof.
  unfold Paths.endswith. cbn [String.length].
  induction a as [|c a IH]; [discriminate|].
  rewrite andb_true_iff. intros [_ H].
  destruct a as [|d a].
  - cbn in H. destruct (Ascii.eqb_spec c "/") as [-> | _]; [|discriminate].
    now exists "".
  - rewrite substring_last in H by discriminate.
    destruct IH as [a' Ha'].
    + rewrite andb_true_iff. split; [reflexivity | exact H].
    + exists (String c a'). cbn. now rewrite <- Ha'.
Qed.

End Basenames.

(** X6.  Joining a folder with a file name that has no separator and taking
    the base name of the result gives the file name back, whatever the
    folder: the evaluation cell's 'Image:' line shows the name as listed. *)
Theorem basename_of_joined_path (dir fname : string) :
  Paths.contains "/" fname = false ->
  Paths.os_path_basename (Paths.os_path_join dir fname) = fname.
Proof.
  intro H. unfold Paths.os_path_basename, Paths.os_path_join.
  destruct (String.prefix "/" fname) eqn:Ep.
  - now apply basename_from_plain.
  - destruct (String.eqb_spec dir "") as [-> | Hne]; cbn [orb].
    + now apply basename_from_plain.
    + destruct (Paths.endswith dir "/") eqn:Ee.
      * apply endswith_separator in Ee. destruct Ee as [d' ->].
        rewrite string_app_assoc. cbn [String.append].
        rewrite basename_from_after_separator.
        now apply basename_from_plain.
      * cbn [String.append]. rewrite basename_from_after_separator.
        now apply basename_from_plain.
Qed.

Lemma basename_of_joined_path_witness :
  Paths.os_path_basename
    (Paths.os_path_join Paths.non_autistic_dir "Non_Autistic.7.jpg") =
  "Non_Autistic.7.jpg"%string.
Proof.
  apply (basename_of_joined_path Paths.non_autistic_dir "Non_Autistic.7.jpg").
  reflexivity.
Defined.

(* ===================================================================== *)
(** * Every outcome of [get_gradcam_heatmap] *)
(* ===================================================================== *)

Lemma concat_map_map_nil {A B} (f : A -> B) (t : tensor2 A) :
  List.concat (map (map f) t) = [] <-> List.concat t = [].
Proof.
  rewrite <- concat_map. split.
  - apply map_eq_nil.
  - intros ->. reflexivity.
Qed.

Lemma relu_heatmap_empty (conv_outputs grads : tensor3) :
  List.concat (GradCam.relu_heatmap conv_outputs grads) = [] <->
  List.concat conv_outputs = [].
Proof.
  unfold GradCam.relu_heatmap, maximum0, GradCam.raw_heatmap,
    reduce_mean_last, multiply.
  now rewrite !concat_map_map_nil.
Qed.

Lemma normalized_heatmap_outcome (conv_outputs grads : tensor3) :
  (List.concat conv_outputs = [] ->
   GradCam.normalized_heatmap conv_outputs grads = Raises ValueError) /\
  (List.concat conv_outputs <> [] ->
   exists heatmap,
     GradCam.normalized_heatmap conv_outputs grads = Returns heatmap /\
     extents heatmap = extents conv_outputs).
Proof.
  unfold GradCam.normalized_heatmap, normalize, amax.
  pose proof (relu_heatmap_empty conv_outputs grads) as Hiff.
  destruct (List.concat (GradCam.relu_heatmap conv_outputs grads)) as [|v vs].
  - split; [reflexivity|]. intro H. exfalso. apply H. now apply Hiff.
  - split.
    + intro H. apply Hiff in H. discriminate.
    + intros _. eexists. split; [reflexivity|].
      unfold GradCam.relu_heatmap, maximum0, GradCam.raw_heatmap,
        reduce_mean_last, multiply.
      now rewrite !extents_map.
Qed.

(** X7.  For an image that loads and a named layer whose output is a
    three-dimensional feature map (the only layers of the embedding; a
    layer of another rank makes TensorFlow fail in the mean over the
    spatial axes, which is not modelled), [get_gradcam_heatmap] reads the
    image, looks the layer up and runs the network once, in that order;
    it then stops with the ValueError of [np.max] when the feature map has
    no spatial position, and otherwise returns a heatmap together with the
    loaded image, unchanged. *)
Theorem gradcam_outcomes (fs : storage) (resize : GradCam.resizer)
  (model : keras_model) (img_path : string) (img_size : nat * nat)
  (name : string) (img : tensor3) (l : layer) :
  fs img_path img_size = Some img ->
  find_layer (layers model) name = Some l ->
  let r := run (GradCam.get_gradcam_heatmap fs resize model img_path img_size
                  name) in
  snd r = [LoadImg img_path img_size; GetLayer name; Forward] /\
  (List.concat (output l (div255 img)) = [] -> fst r = Raises ValueError) /\
  (List.concat (output l (div255 img)) <> [] ->
   exists heatmap, fst r = Returns (heatmap, img)).
Proof.
  intros Hfs Hl. cbv zeta.
  unfold run, GradCam.get_gradcam_heatmap, load_img, get_layer, bind, emit,
    raise, ret, lift.
  rewrite Hfs, Hl.
  set (conv_outputs := output l (div255 img)).
  set (grads := Target.tape_gradient _ _).
  destruct (normalized_heatmap_outcome conv_outputs grads) as [Hempty Hsome].
  assert (Hc : List.concat conv_outputs = [] \/ List.concat conv_outputs <> []).
  { destruct (List.concat conv_outputs); [now left | right; discriminate]. }
  destruct Hc as [E | E].
  - rewrite (Hempty E). split; [reflexivity|].
    split; [reflexivity | intro H; contradiction].
  - destruct (Hsome E) as (heatmap & Hn & _). rewrite Hn.
    split; [reflexivity|].
    split; [intro H; contradiction | intros _; now eexists].
Qed.

Lemma gradcam_outcomes_witness :
  let flat := {| output := fun _ => [[]; []];
                 d_prediction := fun _ => [[]; []] |} in
  let model := {| layers := [("flat"%string, flat)];
                  predict := fun _ => 0.9 |} in
  run (GradCam.get_gradcam_heatmap Demo.fs Cv2.resize_linear model
         "face.jpg" (2, 2)%nat "flat") =
  (Raises ValueError,
   [LoadImg "face.jpg" (2, 2)%nat; GetLayer "flat"; Forward]).
Proof.
  intros flat model.
  destruct (gradcam_outcomes Demo.fs Cv2.resize_linear model "face.jpg"
              (2, 2)%nat "flat" (Demo.img (2, 2)%nat) flat eq_refl eq_refl)
    as (Hlog & Hempty & _).
  rewrite (surjective_pairing (run _)). rewrite Hlog, (Hempty eq_refl).
  reflexivity.
Defined.

(* ===================================================================== *)
(** * The overlay as an image *)
(* ===================================================================== *)

Lemma has_shape3_intro {A} (h w c : nat) (row : list (list A))
  (t : list (list (list A))) :
  List.length row = w -> Forall (fun px => List.length px = c) row ->
  has_shape3 h w c t = true -> has_shape3 (S h) w c (row :: t) = true.
Proof.
  intros Hw Hc Ht. pose proof (has_shape3_length _ _ _ _ Ht) as Hl.
  unfold has_shape3 in *. cbn [List.length forallb].
  apply andb_true_iff in Ht. destruct Ht as [_ Ht].
  rewrite Hl, Nat.eqb_refl, Hw, Nat.eqb_refl, Ht. cbn [andb].
  rewrite andb_true_r. apply forallb_forall. intros px Hin.
  rewrite Forall_forall in Hc. apply Nat.eqb_eq. now apply Hc.
Qed.

Lemma overlay_row_shape (w c : nat) (ro : list (list Q)) (rh : list (list Z)) :
  List.length ro = w -> Forall (fun px => List.length px = c) ro ->
  List.length rh = w -> Forall (fun px => List.length px = c) rh ->
  let row := map (fun pxs =>
                    map (fun ch => Overlay.blend (fst ch) (snd ch))
                        (combine (fst pxs) (snd pxs)))
                 (combine ro rh) in
  List.length row = w /\ Forall (fun px => List.length px = c) row.
Proof.
  intros Ho Fo Hh Fh row. unfold row. split.
  - rewrite length_map, length_combine. lia.
  - apply Forall_forall. intros px Hin.
    apply in_map_iff in Hin. destruct Hin as ([po ph] & <- & Hin).
    cbn [fst snd]. rewrite length_map, length_combine.
    rewrite Forall_forall in Fo, Fh.
    rewrite (Fo po (in_combine_l _ _ _ _ Hin)).
    rewrite (Fh ph (in_combine_r _ _ _ _ Hin)). lia.
Qed.

(** X8.  The overlay of an image and a colour heatmap of one shape has that
    same shape (height x width x channels): the blended picture can be
    shown beside the original. *)
Theorem overlay_keeps_shape (h w c : nat) (original_img : tensor3)
  (heatmap_rgb : list (list (list Z))) :
  has_shape3 h w c original_img = true ->
  has_shape3 h w c heatmap_rgb = true ->
  has_shape3 h w c (Overlay.overlay original_img heatmap_rgb) = true.
Proof.
  revert h heatmap_rgb.
  induction original_img as [|ro original_img IH]; intros h heatmap_rgb Ho Hh.
  - apply has_shape3_nil in Ho. subst h. reflexivity.
  - apply has_shape3_cons in Ho. destruct Ho as (h' & -> & Wo & Co & Ho).
    destruct heatmap_rgb as [|rh heatmap_rgb].
    + apply has_shape3_nil in Hh. discriminate.
    + apply has_shape3_cons in Hh. destruct Hh as (h'' & Eh & Wh & Ch & Hh).
      injection Eh as <-.
      destruct (overlay_row_shape w c ro rh Wo Co Wh Ch) as [Hw Hc].
      unfold Overlay.overlay. cbn [combine map fst snd].
      apply has_shape3_intro; [exact Hw | exact Hc |].
      now apply IH.
Qed.

Lemma overlay_keeps_shape_witness :
  has_shape3 1 2 3
    (Overlay.overlay [[[255; 128; 0]; [1; 2; 3]]]
                     [[[0; 0; 128]; [128; 0; 0]]]%Z) = true.
Proof.
  apply (overlay_keeps_shape 1 2 3); reflexivity.
Defined.

(** X9.  For a pixel value and a heatmap colour that both lie in 0..255 the
    clip changes nothing: the overlay entry is the integer part of
    0.6*original + 0.4*colour, and it lies between the two blended values
    (less than one below the smaller at most, never above the larger). *)
Theorem blend_within_inputs (original_img : Q) (heatmap_rgb : Z) :
  0 <= original_img <= 255 -> (0 <= heatmap_rgb <= 255)%Z ->
  exists z,
    Overlay.blend original_img heatmap_rgb = Some z /\
    z = Qfloor (0.6 * original_img + 0.4 * inject_Z heatmap_rgb) /\
    Qmin original_img (inject_Z heatmap_rgb) - 1 < inject_Z z /\
    inject_Z z <= Qmax original_img (inject_Z heatmap_rgb).
Proof.
  intros [O0 O1] [H0 H1].
  set (hc := inject_Z heatmap_rgb).
  assert (Hc0 : 0 <= hc)
    by (unfold hc; change 0 with (inject_Z 0); now rewrite <- Zle_Qle).
  assert (Hc1 : hc <= 255)
    by (unfold hc; change 255 with (inject_Z 255); now rewrite <- Zle_Qle).
  set (v := 0.6 * original_img + 0.4 * hc).
  destruct (blend_formula original_img heatmap_rgb) as [F _].
  fold hc in F. fold v in F.
  assert (Ev : clip v 0 255 == v) by (apply clip_inside; unfold v; split; lra).
  exists (Qfloor v). split; [|split; [reflexivity|split]].
  - rewrite F. f_equal. now apply Qfloor_comp.
  - pose proof (Qlt_floor v) as Hup.
    rewrite inject_Z_plus in Hup. change (inject_Z 1) with 1 in Hup.
    pose proof (Q.le_min_l original_img hc).
    pose proof (Q.le_min_r original_img hc).
    unfold v in *. lra.
  - pose proof (Qfloor_le v) as Hlo.
    pose proof (Q.le_max_l original_img hc).
    pose proof (Q.le_max_r original_img hc).
    unfold v in *. lra.
Qed.

Lemma blend_within_inputs_witness :
  exists z, Overlay.blend 100 128 = Some z /\
            z = Qfloor (0.6 * 100 + 0.4 * inject_Z 128).
Proof.
  destruct (blend_within_inputs 100 128) as (z & Hz & Hv & _).
  - split; discriminate.
  - lia.
  - now exists z.
Defined.

(* ===================================================================== *)
(** * The two decisions explain opposite evidence *)
(* ===================================================================== *)

Lemma sum_opp (l : list Q) : Num.sum (map Qopp l) == - Num.sum l.
Proof.
  unfold Num.sum. induction l as [|a l IH]; cbn.
  - reflexivity.
  - rewrite IH. ring.
Qed.

Lemma mean_opp (l : list Q) : Num.mean (map Qopp l) == - Num.mean l.
Proof.
  unfold Num.mean. rewrite length_map, sum_opp. unfold Qdiv. ring.
Qed.

Lemma channels_opp (g : tensor3) :
  channels (map (map (map Qopp)) g) = channels g.
Proof.
  unfold channels. rewrite <- concat_map.
  destruct (List.concat g) as [|px pxs]; cbn; [reflexivity | apply length_map].
Qed.

Lemma channel_opp (k : nat) (g : tensor3) :
  channel k (map (map (map Qopp)) g) = map Qopp (channel k g).
Proof.
  unfold channel. rewrite <- concat_map, !map_map.
  apply map_ext. intro px. exact (map_nth Qopp px 0 k).
Qed.

Lemma Forall2_map_same {A B} (R : B -> B -> Prop) (f g : A -> B) (l : list A) :
  (forall x, R (f x) (g x)) -> Forall2 R (map f l) (map g l).
Proof. intro H. induction l; cbn; constructor; auto. Qed.

Lemma pooled_grads_opp (g : tensor3) :
  Forall2 (fun a b => a == - b)
          (GradCam.pooled_grads (map (map (map Qopp)) g))
          (GradCam.pooled_grads g).
Proof.
  unfold GradCam.pooled_grads, reduce_mean_01. rewrite channels_opp.
  apply Forall2_map_same. intro k. rewrite channel_opp. apply mean_opp.
Qed.

Lemma weighted_sum_opp (px ws ws' : list Q) :
  Forall2 (fun a b => a == - b) ws ws' ->
  Num.sum (map (fun aw => fst aw * snd aw) (combine px ws)) ==
  - Num.sum (map (fun aw => fst aw * snd aw) (combine px ws')).
Proof.
  intro H. revert px. unfold Num.sum.
  induction H as [|a b ws ws' Hab _ IH]; intro px.
  - destruct px; reflexivity.
  - destruct px as [|x px]; cbn; [reflexivity|].
    rewrite IH, Hab. ring.
Qed.

Lemma weighted_mean_opp (px ws ws' : list Q) :
  Forall2 (fun a b => a == - b) ws ws' ->
  Num.mean (map (fun aw => fst aw * snd aw) (combine px ws)) ==
  - Num.mean (map (fun aw => fst aw * snd aw) (combine px ws')).
Proof.
  intro H. unfold Num.mean.
  rewrite (weighted_sum_opp px ws ws' H).
  rewrite !length_map, !length_combine, (Forall2_length H).
  unfold Qdiv. ring.
Qed.

Lemma raw_heatmap_opp (conv_outputs g : tensor3) :
  Forall2 (Forall2 (fun a b => a == - b))
          (GradCam.raw_heatmap conv_outputs (map (map (map Qopp)) g))
          (GradCam.raw_heatmap conv_outputs g).
Proof.
  unfold GradCam.raw_heatmap, reduce_mean_last, multiply. rewrite !map_map.
  apply Forall2_map_same. intro row. rewrite !map_map.
  apply Forall2_map_same. intro px.
  apply weighted_mean_opp, pooled_grads_opp.
Qed.

Lemma Forall2_map_both {A B} (R : A -> A -> Prop) (R' : B -> B -> Prop)
  (f : A -> B) (l l' : list A) :
  (forall a b, R a b -> R' (f a) (f b)) ->
  Forall2 R l l' -> Forall2 R' (map f l) (map f l').
Proof. intros Hf H. induction H; cbn; constructor; auto. Qed.

Lemma relu_of_opposites (a b : Q) :
  a == - b -> Qmax a 0 == 0 \/ Qmax b 0 == 0.
Proof.
  intro H. destruct (Qlt_le_dec 0 a) as [Ha | Ha].
  - right. apply Q.max_r. lra.
  - left. now apply Q.max_r.
Qed.

(** X10.  For one image and one layer, the raw heatmap computed for the
    negative decision ([p <= 0.5], score [1 - p]) is at every location the
    negation of the one computed for the positive decision ([p > 0.5],
    score [p]); after the ReLU no location is positive in both: what counts
    as evidence for one class is blank in the map of the other. *)
Theorem decisions_explain_opposite_evidence
  (conv_outputs d_pred : tensor3) (p q : Q) :
  0.5 < p -> q <= 0.5 ->
  let positive := Target.tape_gradient (Target.loss p) d_pred in
  let negative := Target.tape_gradient (Target.loss q) d_pred in
  Forall2 (Forall2 (fun a b => a == - b))
          (GradCam.raw_heatmap conv_outputs negative)
          (GradCam.raw_heatmap conv_outputs positive) /\
  Forall2 (Forall2 (fun a b => a == 0 \/ b == 0))
          (GradCam.relu_heatmap conv_outputs negative)
          (GradCam.relu_heatmap conv_outputs positive).
Proof.
  intros Hp Hq positive negative.
  assert (Ep : positive = d_pred).
  { unfold positive, Target.loss, Target.predicted_class.
    apply gt_true in Hp. rewrite Hp. reflexivity. }
  assert (En : negative = map (map (map Qopp)) d_pred).
  { unfold negative, Target.loss, Target.predicted_class.
    apply gt_false in Hq. rewrite Hq. reflexivity. }
  rewrite Ep, En.
  pose proof (raw_heatmap_opp conv_outputs d_pred) as H.
  split; [exact H|].
  unfold GradCam.relu_heatmap, maximum0.
  apply (Forall2_map_both (Forall2 (fun a b => a == - b))); [|exact H].
  intros row row' Hrow.
  apply (Forall2_map_both (fun a b => a == - b)); [|exact Hrow].
  intros a b. apply relu_of_opposites.
Qed.

Lemma decisions_explain_opposite_evidence_witness :
  Forall2 (Forall2 (fun a b => a == - b))
    (GradCam.raw_heatmap [[[1; 2]; [3; 4]]]
       (Target.tape_gradient (Target.loss 0.2) [[[1; 0]; [3; -2]]]))
    (GradCam.raw_heatmap [[[1; 2]; [3; 4]]]
       (Target.tape_gradient (Target.loss 0.9) [[[1; 0]; [3; -2]]])).
Proof.
  refine (proj1 (decisions_explain_opposite_evidence
                   [[[1; 2]; [3; 4]]] [[[1; 0]; [3; -2]]] 0.9 0.2 _ _));
    [reflexivity | discriminate].
Defined.

(* ===================================================================== *)
(** * The heatmap does not depend on the scale of the gradient *)
(* ===================================================================== *)

Section Scaling.

Variable k : Q.

Lemma sum_scaled (l l' : list Q) :
  Forall2 (Relate.scaled k) l l' -> Num.sum l == k * Num.sum l'.
Proof.
  unfold Num.sum, Relate.scaled. induction 1 as [|a b l l' Hab _ IH]; cbn.
  - ring.
  - rewrite IH, Hab. ring.
Qed.

Lemma mean_scaled (l l' : list Q) :
  Forall2 (Relate.scaled k) l l' -> Num.mean l == k * Num.mean l'.
Proof.
  intro H. unfold Num.mean.
  rewrite (sum_scaled l l' H), (Forall2_length H). unfold Qdiv. ring.
Qed.

Lemma nth_scaled (px : list Q) (i : nat) :
  Relate.scaled k (nth i (map (Qmult k) px) 0) (nth i px 0).
Proof.
  unfold Relate.scaled. revert i.
  induction px as [|x px IH]; intros [|i]; cbn; try ring.
  apply IH.
Qed.

Lemma channels_scaled (g : tensor3) :
  channels (Relate.scale3 k g) = channels g.
Proof.
  unfold channels, Relate.scale3. rewrite <- concat_map.
  destruct (List.concat g) as [|px pxs]; cbn; [reflexivity | apply length_map].
Qed.

Lemma channel_scaled (i : nat) (g : tensor3) :
  Forall2 (Relate.scaled k) (channel i (Relate.scale3 k g)) (channel i g).
Proof.
  unfold channel, Relate.scale3. rewrite <- concat_map, map_map.
  apply Forall2_map_same. intro px. apply nth_scaled.
Qed.

Lemma pooled_grads_scaled (g : tensor3) :
  Forall2 (Relate.scaled k) (GradCam.pooled_grads (Relate.scale3 k g))
          (GradCam.pooled_grads g).
Proof.
  unfold GradCam.pooled_grads, reduce_mean_01. rewrite channels_scaled.
  apply Forall2_map_same. intro i. apply mean_scaled, channel_scaled.
Qed.

Lemma weighted_scaled (px ws ws' : list Q) :
  Forall2 (Relate.scaled k) ws ws' ->
  Forall2 (Relate.scaled k)
          (map (fun aw => fst aw * snd aw) (combine px ws))
          (map (fun aw => fst aw * snd aw) (combine px ws')).
Proof.
  intro H. revert px.
  induction H as [|a b ws ws' Hab _ IH]; intro px.
  - destruct px; constructor.
  - destruct px as [|x px]; cbn; constructor.
    + unfold Relate.scaled in *. rewrite Hab. ring.
    + apply IH.
Qed.

Lemma raw_heatmap_scaled (conv_outputs g : tensor3) :
  Forall2 (Forall2 (Relate.scaled k))
          (GradCam.raw_heatmap conv_outputs (Relate.scale3 k g))
          (GradCam.raw_heatmap conv_outputs g).
Proof.
  unfold GradCam.raw_heatmap, reduce_mean_last, multiply. rewrite !map_map.
  apply Forall2_map_same. intro row. rewrite !map_map.
  apply Forall2_map_same. intro px.
  apply mean_scaled, weighted_scaled, pooled_grads_scaled.
Qed.

Hypothesis k_positive : 0 < k.

Lemma Qmax_scaled (a b a' b' : Q) :
  Relate.scaled k a a' -> Relate.scaled k b b' ->
  Relate.scaled k (Qmax a b) (Qmax a' b').
Proof.
  unfold Relate.scaled. intros Ha Hb.
  destruct (Qlt_le_dec a' b') as [Hlt | Hle].
  - rewrite (Q.max_r a' b') by lra. rewrite Q.max_r; [exact Hb|].
    rewrite Ha, Hb. apply Qmult_le_l; [exact k_positive | lra].
  - rewrite (Q.max_l a' b') by exact Hle. rewrite Q.max_l; [exact Ha|].
    rewrite Ha, Hb. now apply Qmult_le_l.
Qed.

Lemma relu_heatmap_scaled (conv_outputs g : tensor3) :
  Forall2 (Forall2 (Relate.scaled k))
          (GradCam.relu_heatmap conv_outputs (Relate.scale3 k g))
          (GradCam.relu_heatmap conv_outputs g).
Proof.
  unfold GradCam.relu_heatmap, maximum0.
  apply (Forall2_map_both (Forall2 (Relate.scaled k)));
    [|apply raw_heatmap_scaled].
  intros row row'. apply Forall2_map_both.
  intros a b Hab. apply Qmax_scaled; [exact Hab|].
  unfold Relate.scaled. ring.
Qed.

Lemma concat_scaled (h h' : tensor2 Q) :
  Forall2 (Forall2 (Relate.scaled k)) h h' ->
  Forall2 (Relate.scaled k) (List.concat h) (List.concat h').
Proof.
  induction 1 as [|row row' h h' Hrow _ IH]; cbn.
  - constructor.
  - now apply Forall2_app.
Qed.

Lemma fold_left_Qmax_scaled (vs vs' : list Q) :
  Forall2 (Relate.scaled k) vs vs' ->
  forall v v', Relate.scaled k v v' ->
  Relate.scaled k (fold_left Qmax vs v) (fold_left Qmax vs' v').
Proof.
  induction 1 as [|a b vs vs' Hab _ IH]; intros v v' Hv; cbn.
  - exact Hv.
  - apply IH. now apply Qmax_scaled.
Qed.

Lemma true_divide_scaled (a b m m' : Q) :
  Relate.scaled k a b -> Relate.scaled k m m' ->
  Relate.same_float (true_divide a m) (true_divide b m').
Proof.
  unfold Relate.scaled. intros Ha Hm.
  assert (Hk : ~ k == 0) by lra.
  assert (Zm : m == 0 <-> m' == 0).
  { rewrite Hm. split; intro H; [|rewrite H; ring].
    destruct (Qmult_integral _ _ H); [contradiction | assumption]. }
  assert (Za : a == 0 <-> b == 0).
  { rewrite Ha. split; intro H; [|rewrite H; ring].
    destruct (Qmult_integral _ _ H); [contradiction | assumption]. }
  assert (Ga : Num.gt a 0 = Num.gt b 0).
  { destruct (gt_spec b 0) as [Hb | Hb].
    - apply gt_true. rewrite Ha. now apply Qmult_lt_0_compat.
    - apply gt_false. rewrite Ha.
      setoid_replace 0 with (k * 0) by ring.
      apply Qmult_le_l; assumption. }
  unfold true_divide.
  destruct (Qeq_bool m 0) eqn:Em; destruct (Qeq_bool m' 0) eqn:Em'.
  - destruct (Qeq_bool a 0) eqn:Ea; destruct (Qeq_bool b 0) eqn:Eb; cbn.
    + exact I.
    + apply Qeq_bool_iff, Za, Qeq_bool_iff in Ea. congruence.
    + apply Qeq_bool_iff, Za, Qeq_bool_iff in Eb. congruence.
    + now rewrite Ga.
  - apply Qeq_bool_iff, Zm, Qeq_bool_iff in Em. congruence.
  - apply Qeq_bool_iff, Zm, Qeq_bool_iff in Em'. congruence.
  - cbn. rewrite Ha, Hm.
    assert (Hm' : ~ m' == 0).
    { intro H. apply Qeq_bool_iff in H. congruence. }
    field. split; assumption.
Qed.

Lemma normalize_scaled (h h' : tensor2 Q) :
  Forall2 (Forall2 (Relate.scaled k)) h h' ->
  match normalize h, normalize h' with
  | Returns a, Returns b => Forall2 (Forall2 Relate.same_float) a b
  | Raises e, Raises e' => e = e'
  | _, _ => False
  end.
Proof.
  intro H. pose proof (concat_scaled h h' H) as Hc.
  unfold normalize, amax.
  destruct Hc as [|v v' vs vs' Hv Hvs]; [reflexivity|].
  pose proof (fold_left_Qmax_scaled vs vs' Hvs v v' Hv) as Hm.
  clear Hv Hvs.
  induction H as [|row row' h h' Hrow _ IH]; cbn; constructor; [|exact IH].
  clear IH. induction Hrow as [|a b row row' Hab _ IH]; cbn; constructor.
  - now apply true_divide_scaled.
  - exact IH.
Qed.

End Scaling.

(** X11.  Multiplying the whole gradient field by a positive factor does
    not change the outcome of the normalisation: the same error, or a
    heatmap with the same value at every location (NaN where the other is
    NaN).  The map shows the relative weight of the locations only. *)
Theorem heatmap_ignores_gradient_scale (k : Q) (conv_outputs grads : tensor3) :
  0 < k ->
  match GradCam.normalized_heatmap conv_outputs (Relate.scale3 k grads),
        GradCam.normalized_heatmap conv_outputs grads with
  | Returns a, Returns b => Forall2 (Forall2 Relate.same_float) a b
  | Raises e, Raises e' => e = e'
  | _, _ => False
  end.
Proof.
  intro Hk. unfold GradCam.normalized_heatmap.
  apply (normalize_scaled k Hk). now apply relu_heatmap_scaled.
Qed.

Lemma heatmap_ignores_gradient_scale_witness :
  match GradCam.normalized_heatmap [[[1; 2]; [3; 4]]]
          (Relate.scale3 10 [[[1; 0]; [3; -2]]]),
        GradCam.normalized_heatmap [[[1; 2]; [3; 4]]] [[[1; 0]; [3; -2]]] with
  | Returns a, Returns b => Forall2 (Forall2 Relate.same_float) a b
  | Raises e, Raises e' => e = e'
  | _, _ => False
  end.
Proof.
  apply (heatmap_ignores_gradient_scale 10). reflexivity.
Defined.

(* ===================================================================== *)
(** * The visualisation cells: shapes and effects *)
(* ===================================================================== *)

Lemma shape3_of_rows {A B} (h w c : nat) (f : A -> list B) (t : tensor2 A) :
  extents t = repeat w h ->
  all2 (fun v => List.length (f v) = c) t ->
  has_shape3 h w c (map (map f) t) = true.
Proof.
  revert h. induction t as [|row t IH]; intros h He Hall.
  - destruct h; [reflexivity | discriminate].
  - destruct h as [|h]; [discriminate|].
    unfold extents in He. cbn in He. injection He as Hw He.
    cbn [map]. apply has_shape3_intro.
    + now rewrite length_map.
    + apply Forall_forall. intros px Hin.
      apply in_map_iff in Hin. destruct Hin as (v & <- & Hv).
      apply (Hall row); [now left | exact Hv].
    + apply IH; [exact He|].
      intros r Hr v Hv. apply (Hall r); [now right | exact Hv].
Qed.

Lemma all3_of_rows {A B} (P : B -> Prop) (f : A -> list B) (t : tensor2 A) :
  all2 (fun v => Forall P (f v)) t -> Relate.all3 P (map (map f) t).
Proof.
  intro H. unfold Relate.all3. apply Forall_forall. intros row Hrow.
  apply in_map_iff in Hrow. destruct Hrow as (row0 & <- & Hrow0).
  apply Forall_forall. intros px Hpx.
  apply in_map_iff in Hpx. destruct Hpx as (v & <- & Hv).
  now apply (H row0).
Qed.

Lemma has_shape3_map {A B} (h w c : nat) (f : list A -> list B)
  (t : list (list (list A))) :
  (forall px, List.length (f px) = List.length px) ->
  has_shape3 h w c t = true -> has_shape3 h w c (map (map f) t) = true.
Proof.
  intro Hf. revert h. induction t as [|row t IH]; intros h Hs.
  - apply has_shape3_nil in Hs. now subst h.
  - apply has_shape3_cons in Hs. destruct Hs as (h' & -> & Hw & Hc & Ht).
    cbn [map]. apply has_shape3_intro.
    + now rewrite length_map.
    + apply Forall_forall. intros px Hin.
      apply in_map_iff in Hin. destruct Hin as (px0 & <- & Hin).
      rewrite Hf. rewrite Forall_forall in Hc. now apply Hc.
    + now apply IH.
Qed.

Lemma all3_map {A} (P : A -> Prop) (f : list A -> list A)
  (t : list (list (list A))) :
  (forall px, Forall P px -> Forall P (f px)) ->
  Relate.all3 P t -> Relate.all3 P (map (map f) t).
Proof.
  intros Hf H. unfold Relate.all3 in *.
  apply Forall_map. eapply Forall_impl; [|exact H].
  intros row Hrow. apply Forall_map. eapply Forall_impl; [|exact Hrow].
  exact Hf.
Qed.

Lemma Forall_combine_r {A B} (P : B -> Prop) (a : list A) (b : list B) :
  Forall P b -> Forall (fun xy => P (snd xy)) (combine a b).
Proof.
  intro H. revert a. induction H as [|y b Hy _ IH]; intro a.
  - destruct a; constructor.
  - destruct a as [|x a]; cbn; constructor; auto.
Qed.

Lemma zip3_all {A B C} (P : B -> Prop) (R : C -> Prop) (f : A -> B -> C)
  (a : list (list (list A))) (b : list (list (list B))) :
  (forall x y, P y -> R (f x y)) ->
  Relate.all3 P b -> Relate.all3 R (Render.zip3 f a b).
Proof.
  intros Hf Hb. unfold Relate.all3, Render.zip3 in *.
  apply Forall_map. eapply Forall_impl; [|apply Forall_combine_r, Hb].
  intros [ra rb] Hrow. cbn [fst snd] in *.
  apply Forall_map. eapply Forall_impl; [|apply Forall_combine_r, Hrow].
  intros [pa pb] Hpx. cbn [fst snd] in *.
  apply Forall_map. eapply Forall_impl; [|apply Forall_combine_r, Hpx].
  intros [x y] Hy. cbn [fst snd] in *. now apply Hf.
Qed.

Lemma zip3_shape {A B C} (h w c : nat) (f : A -> B -> C)
  (a : list (list (list A))) (b : list (list (list B))) :
  has_shape3 h w c a = true -> has_shape3 h w c b = true ->
  has_shape3 h w c (Render.zip3 f a b) = true.
Proof.
  revert h b. induction a as [|ra a IH]; intros h b Ha Hb.
  - apply has_shape3_nil in Ha. subst h. reflexivity.
  - apply has_shape3_cons in Ha. destruct Ha as (h' & -> & Wa & Ca & Ha).
    destruct b as [|rb b]; [apply has_shape3_nil in Hb; discriminate|].
    apply has_shape3_cons in Hb. destruct Hb as (h'' & Eh & Wb & Cb & Hb).
    injection Eh as <-.
    unfold Render.zip3. cbn [combine map fst snd].
    apply has_shape3_intro; [| |now apply IH].
    + rewrite length_map, length_combine. lia.
    + apply Forall_forall. intros px Hin.
      apply in_map_iff in Hin. destruct Hin as ([pa pb] & <- & Hin).
      cbn [fst snd]. rewrite length_map, length_combine.
      rewrite Forall_forall in Ca, Cb.
      rewrite (Ca pa (in_combine_l _ _ _ _ Hin)).
      rewrite (Cb pb (in_combine_r _ _ _ _ Hin)). lia.
Qed.

Lemma render_blend_defined (o : Q) (hc : option Z) :
  is_uint8 hc -> is_uint8 (Render.blend o hc).
Proof.
  intros (z & -> & _). cbn [Render.blend].
  destruct (blend_formula o z) as [F R]. eexists. split; [exact F | exact R].
Qed.

Section Figures.

(** The requirements on [cv2.resize] (as for the returned heatmap) and on
    the colour table: three channels of 8-bit values for every level. *)
Variable resize : GradCam.resizer.
Variable jet : Render.palette.

Hypothesis resize_extents :
  forall src dsize, extents (resize src dsize) = repeat (fst dsize) (snd dsize).

Hypothesis resize_range :
  forall src dsize h w lo hi,
    extents src = repeat w h -> (0 < h)%nat -> (0 < w)%nat ->
    all2 (fin_between lo hi) src ->
    all2 (fin_between lo hi) (resize src dsize).

Hypothesis jet_colours :
  forall z, (0 <= z <= 255)%Z ->
    List.length (jet z) = 3%nat /\ Forall (fun c => (0 <= c <= 255)%Z) (jet z).

Lemma coloured_pixel (v : option Z) :
  is_uint8 v ->
  let px := match v with
            | Some z => map Some (jet z)
            | None => [None; None; None]
            end in
  List.length px = 3%nat /\ Forall is_uint8 px.
Proof.
  intros (z & -> & Hz). cbn zeta. destruct (jet_colours z Hz) as [Hl Hc].
  split; [now rewrite length_map|].
  apply Forall_map. eapply Forall_impl; [|exact Hc].
  intros c Hcol. now exists c.
Qed.

Lemma colour_and_blend_shapes (H W : nat) (heatmap : tensor2 (option Z))
  (original_img : tensor3) :
  extents heatmap = repeat W H -> all2 is_uint8 heatmap ->
  has_shape3 H W 3 original_img = true ->
  let shown := Render.colour_and_blend jet heatmap original_img in
  has_shape3 H W 3 (fst shown) = true /\
  has_shape3 H W 3 (snd shown) = true /\
  Relate.all3 is_uint8 (fst shown) /\
  Relate.all3 is_uint8 (snd shown).
Proof.
  intros He Hall Ho shown.
  assert (Hs : has_shape3 H W 3 (fst shown) = true).
  { unfold shown, Render.colour_and_blend, Render.cvtColor_BGR2RGB.
    cbn [fst]. apply has_shape3_map; [intro; apply length_rev|].
    apply shape3_of_rows; [exact He|].
    intros row Hrow v Hv. now apply coloured_pixel, (Hall row). }
  assert (Ha : Relate.all3 is_uint8 (fst shown)).
  { unfold shown, Render.colour_and_blend, Render.cvtColor_BGR2RGB.
    cbn [fst]. apply all3_map; [intros px; apply Forall_rev|].
    apply all3_of_rows.
    intros row Hrow v Hv. now apply coloured_pixel, (Hall row). }
  repeat split; try assumption.
  - unfold shown, Render.colour_and_blend. cbn [snd].
    now apply zip3_shape.
  - unfold shown, Render.colour_and_blend. cbn [snd].
    apply (zip3_all is_uint8); [|exact Ha].
    intros x y. apply render_blend_defined.
Qed.

(** X12.  For an image that loads with the shape of [IMG_SIZE] and three
    channels, a model that has the default layer, and a feature map with
    some positive contribution, the visualisation cell raises nothing: the
    heatmap returned by [get_gradcam_heatmap] has the size of the image,
    so the colour heatmap and the overlay both have the image's height,
    width and three channels, with every entry a defined value in 0..255;
    the cell shows them with the label and confidence of [predict_asd]. *)
Theorem explain_shows_image_sized_overlay
  (fs : storage) (model : keras_model) (img_path : string)
  (img : tensor3) (l : layer) (h w c : nat) :
  fs img_path IMG_SIZE = Some img ->
  has_shape3 (fst IMG_SIZE) (snd IMG_SIZE) 3 img = true ->
  find_layer (layers model) "block14_sepconv2_act" = Some l ->
  let x := div255 img in
  let conv_outputs := output l x in
  let grads :=
    Target.tape_gradient (Target.loss (predict model x)) (d_prediction l x) in
  has_shape3 h w c conv_outputs = true ->
  has_shape3 h w c grads = true ->
  (0 < h)%nat -> (0 < w)%nat -> (0 < c)%nat ->
  some2 (fun v => 0 < v) (GradCam.raw_heatmap conv_outputs grads) ->
  exists fig,
    fst (run (Render.explain fs resize jet model img_path)) = Returns fig /\
    has_shape3 (fst IMG_SIZE) (snd IMG_SIZE) 3 (Render.shown_heatmap fig)
      = true /\
    has_shape3 (fst IMG_SIZE) (snd IMG_SIZE) 3 (Render.shown_overlay fig)
      = true /\
    Relate.all3 is_uint8 (Render.shown_heatmap fig) /\
    Relate.all3 is_uint8 (Render.shown_overlay fig) /\
    Render.printed_label fig = Inference.label (predict model x) /\
    Render.printed_confidence fig = Inference.confidence (predict model x).
Proof.
  intros Hfs Himg Hl x conv_outputs grads Hs _ Hh Hw _ Hpos.
  destruct (normalize_positive (GradCam.relu_heatmap conv_outputs grads))
    as (m & Hm & _ & Hnorm & Hrange & _).
  { apply maximum0_nonneg. }
  { now apply relu_positive. }
  set (heatmap := map (map (fun v => Fin (v / m)))
                      (GradCam.relu_heatmap conv_outputs grads)) in *.
  assert (Hext : extents heatmap = repeat w h).
  { unfold heatmap, GradCam.relu_heatmap, maximum0, GradCam.raw_heatmap,
      reduce_mean_last, multiply.
    rewrite !extents_map. now apply (extents_shape h w c). }
  set (pixels := GradCam.to_uint8 resize heatmap IMG_SIZE).
  destruct (colour_and_blend_shapes (fst IMG_SIZE) (snd IMG_SIZE) pixels img)
    as (S1 & S2 & A1 & A2).
  { apply (to_uint8_extents resize resize_extents). }
  { now apply (to_uint8_defined resize resize_range h w). }
  { exact Himg. }
  eexists. split.
  - unfold run, Render.explain, bind at 1.
    unfold GradCam.get_gradcam_heatmap, load_img, get_layer, bind, emit,
      lift, ret.
    rewrite Hfs, Hl. fold x. fold conv_outputs. fold grads.
    change (GradCam.normalized_heatmap conv_outputs grads)
      with (normalize (GradCam.relu_heatmap conv_outputs grads)).
    rewrite Hnorm. fold heatmap. cbn [fst snd].
    unfold predict_asd, load_img, bind, emit, ret. rewrite Hfs.
    reflexivity.
  - cbn [Render.shown_heatmap Render.shown_overlay Render.printed_label
           Render.printed_confidence fst snd].
    repeat split; assumption || reflexivity.
Qed.

End Figures.

Lemma explain_shows_image_sized_overlay_witness :
  exists fig,
    fst (run (Render.explain Demo.fs Cv2.resize_linear
                (fun z => [255 - z; 0; z])%Z Demo.positive_model "face.jpg")) =
      Returns fig /\
    has_shape3 299 299 3 (Render.shown_overlay fig) = true /\
    Render.printed_label fig = "Autistic"%string.
Proof.
  destruct (explain_shows_image_sized_overlay Cv2.resize_linear
              (fun z => [255 - z; 0; z])%Z
              resize_linear_extents resize_linear_range)
    with (fs := Demo.fs) (model := Demo.positive_model)
         (img_path := "face.jpg"%string) (img := Demo.img IMG_SIZE)
         (l := Demo.conv_layer) (h := 1%nat) (w := 1%nat) (c := 1%nat)
    as (fig & Hrun & _ & Hshape & _ & _ & Hlabel & _).
  - intros z Hz. split; [reflexivity|].
    repeat constructor; lia.
  - reflexivity.
  - vm_compute. reflexivity.
  - reflexivity.
  - reflexivity.
  - reflexivity.
  - lia.
  - lia.
  - lia.
  - exists [1 * (1 / 1) / 1], (1 * (1 / 1) / 1).
    split; [now left|]. split; [now left | reflexivity].
  - exists fig. split; [exact Hrun|]. split; [exact Hshape|].
    rewrite Hlabel. reflexivity.
Defined.

Lemma explain_effects (fs : storage) (resize : GradCam.resizer)
  (jet : Render.palette) (model : keras_model) (img_path : string)
  (log : list event) :
  match Render.explain fs resize jet model img_path log with
  | (Returns _, log') =>
      log' = log ++ [LoadImg img_path IMG_SIZE;
                     GetLayer "block14_sepconv2_act"; Forward;
                     LoadImg img_path IMG_SIZE; Forward]
  | (Raises _, _) => True
  end.
Proof.
  unfold Render.explain, bind at 1.
  unfold GradCam.get_gradcam_heatmap, load_img, get_layer, bind, emit,
    raise, lift, ret.
  destruct (fs img_path IMG_SIZE) as [img|] eqn:Hfs; [|exact I].
  destruct (find_layer (layers model) "block14_sepconv2_act") as [l|];
    [|exact I].
  destruct (GradCam.normalized_heatmap _ _) as [heatmap|e]; [|exact I].
  unfold predict_asd, load_img, bind, emit, ret. rewrite Hfs.
  repeat rewrite <- app_assoc. reflexivity.
Qed.

Lemma explain_all_effects (fs : storage) (resize : GradCam.resizer)
  (jet : Render.palette) (model : keras_model) (imgs : list string) :
  forall log0 figs log1,
    Render.explain_all fs resize jet model imgs log0 = (Returns figs, log1) ->
    List.length figs = List.length imgs /\
    log1 = log0 ++ flat_map (fun img_path =>
                     [LoadImg img_path IMG_SIZE;
                      GetLayer "block14_sepconv2_act"; Forward;
                      LoadImg img_path IMG_SIZE; Forward]) imgs.
Proof.
  induction imgs as [|p imgs IH]; intros log0 figs log1 H.
  - cbn in H. unfold ret in H. injection H as <- <-.
    split; [reflexivity | now rewrite app_nil_r].
  - cbn [Render.explain_all] in H. unfold bind at 1 in H.
    pose proof (explain_effects fs resize jet model p log0) as He.
    destruct (Render.explain fs resize jet model p log0) as [[f|e] log'];
      [|discriminate].
    unfold bind at 1 in H.
    destruct (Render.explain_all fs resize jet model imgs log')
      as [[fs'|e] log''] eqn:Hrest; [|discriminate].
    unfold ret in H. injection H as <- <-.
    destruct (IH _ _ _ Hrest) as [Hlen Hlog].
    split; [cbn; now rewrite Hlen|].
    rewrite Hlog, He. cbn [flat_map]. now rewrite <- !app_assoc.
Qed.

(** X13.  Whenever the loop that runs Grad-CAM over [test_images] comes to
    its end, it has produced one figure per image, and for every image in
    turn it has read the file twice and run the network twice (once for
    the heatmap, once more in [predict_asd]) and looked the layer up once;
    nothing else happens. *)
Theorem explain_all_reads_each_image_twice
  (fs : storage) (resize : GradCam.resizer) (jet : Render.palette)
  (model : keras_model) (test_images : list string)
  (figures : list Render.figure) (log : list event) :
  run (Render.explain_all fs resize jet model test_images)
    = (Returns figures, log) ->
  List.length figures = List.length test_images /\
  log = flat_map (fun img_path =>
                    [LoadImg img_path IMG_SIZE;
                     GetLayer "block14_sepconv2_act"; Forward;
                     LoadImg img_path IMG_SIZE; Forward]) test_images.
Proof.
  unfold run. intro H.
  exact (explain_all_effects fs resize jet model test_images [] figures log H).
Qed.

Lemma explain_all_reads_each_image_twice_witness :
  exists figures,
    run (Render.explain_all Demo.fs Cv2.resize_linear
           (fun z => [255 - z; 0; z])%Z Demo.positive_model
           ["face.jpg"; "face.jpg"]%string) =
    (Returns figures,
     flat_map (fun img_path =>
                 [LoadImg img_path IMG_SIZE;
                  GetLayer "block14_sepconv2_act"; Forward;
                  LoadImg img_path IMG_SIZE; Forward])
              ["face.jpg"; "face.jpg"]%string) /\
    List.length figures = 2%nat.
Proof.
  assert (E : exists figures log,
             run (Render.explain_all Demo.fs Cv2.resize_linear
                    (fun z => [255 - z; 0; z])%Z Demo.positive_model
                    ["face.jpg"; "face.jpg"]%string) = (Returns figures, log)).
  { eexists. eexists. reflexivity. }
  destruct E as (figures & log & E).
  destruct (explain_all_reads_each_image_twice _ _ _ _ _ _ _ E) as [Hlen Hlog].
  exists figures. split; [now rewrite <- Hlog | exact Hlen].
Defined.

Lemma explain_all_app (fs : storage) (resize : GradCam.resizer)
  (jet : Render.palette) (model : keras_model) (a b : list string) :
  forall log figs log1,
    Render.explain_all fs resize jet model a log = (Returns figs, log1) ->
    Render.explain_all fs resize jet model (a ++ b) log =
    match Render.explain_all fs resize jet model b log1 with
    | (Returns figs', log2) => (Returns (figs ++ figs'), log2)
    | (Raises e, log2) => (Raises e, log2)
    end.
Proof.
  induction a as [|p a IH]; intros log figs log1 H.
  - cbn in H. unfold ret in H. injection H as <- <-. cbn [app].
    now destruct (Render.explain_all fs resize jet model b log) as [[?|?] ?].
  - cbn [app Render.explain_all] in *. unfold bind at 1 in H.
    unfold bind at 1.
    destruct (Render.explain fs resize jet model p log) as [[f|e] log'];
      [|discriminate].
    unfold bind at 1 in H. unfold bind at 1.
    destruct (Render.explain_all fs resize jet model a log')
      as [[fa|e] log''] eqn:Ha; [|discriminate].
    unfold ret in H. injection H as <- <-.
    rewrite (IH _ _ _ Ha).
    now destruct (Render.explain_all fs resize jet model b log'')
      as [[?|?] ?].
Qed.

(** X14.  The loop that runs Grad-CAM over [test_images] has no handler
    either: when the images before one have been explained and that one
    fails (unreadable file, unknown layer, empty feature map), the loop
    ends with its error at that point; the images after it are not
    touched and the figures already made are not returned. *)
Theorem explain_all_stops_at_first_failure
  (fs : storage) (resize : GradCam.resizer) (jet : Render.palette)
  (model : keras_model) (before : list string) (bad : string)
  (rest : list string) (figures : list Render.figure)
  (log1 log2 : list event) (e : exn) :
  run (Render.explain_all fs resize jet model before)
    = (Returns figures, log1) ->
  Render.explain fs resize jet model bad log1 = (Raises e, log2) ->
  run (Render.explain_all fs resize jet model (before ++ bad :: rest)) =
  (Raises e, log2).
Proof.
  unfold run. intros Hbefore Hbad.
  rewrite (explain_all_app fs resize jet model before (bad :: rest)
             [] figures log1 Hbefore).
  cbn [Render.explain_all]. unfold bind at 1. now rewrite Hbad.
Qed.

Lemma explain_all_stops_at_first_failure_witness :
  run (Render.explain_all Demo.fs Cv2.resize_linear
         (fun z => [255 - z; 0; z])%Z Demo.positive_model
         ([] ++ "missing.jpg" :: ["face.jpg"]))%string =
  (Raises OSError, [LoadImg "missing.jpg" IMG_SIZE]).
Proof.
  apply (explain_all_stops_at_first_failure Demo.fs Cv2.resize_linear
           (fun z => [255 - z; 0; z])%Z Demo.positive_model
           [] "missing.jpg" ["face.jpg"%string] [] [] _ OSError);
    reflexivity.
Defined.

(* ===================================================================== *)
(** * Which file names the listing keeps *)
(* ===================================================================== *)

Section Suffixes.

Local Open Scope string_scope.






End Suffixes.


